(** * Dragon core: the resource workspace (include/core/workspace.h)

    A shallow embedding of [class Workspace] and the properties of its
    tensor registry, its buffer pool and its graph index.

    Workspaces reference one another through raw [Workspace*] pointers and
    hand out raw [Tensor*] pointers, so the embedding keeps two heaps: one
    of workspaces, one of tensors.  Every member function takes the address
    [this] of the workspace it is invoked on.  The filler table is touched by
    [CreateFiller] and [GetFiller] only and is kept as a value of its own;
    the lock table (a table of mutexes) is left out. *)

From stdpp Require Import base option list gmap strings pretty.

Open Scope string_scope.
Open Scope Z_scope.
Open Scope list_scope.

(** ** Outcomes of a call *)

(** The places where the code ends the process: a failed [CHECK] or a
    [LOG(FATAL)]. *)
Inductive fatal : Type :=
  | InvalidWorkspace                    (* MoveWorkspace: CHECK(ws) *)
  | TensorNotFound (name : string)      (* GetTensor: LOG(FATAL) *)
  | NotInWorkspace (name : string)      (* ReleaseTensor: CHECK(HasTensor(name, false)) *)
  | DuplicateCategory (category : string) (* CreateBuffer: CHECK(!buffer_map_.count(category)) *)
  | BuffersNotEnough (category : string). (* GetBuffer: LOG(FATAL) *)

(** [Ret] is a normal return, [Fatal] a process abort, [Crash] the
    dereference of a null or dangling pointer (undefined behaviour in C++),
    [Diverge] the exhaustion of the recursion fuel: the remote search has no
    cycle guard and recurses for ever on a cyclic composition. *)
Inductive outcome (A : Type) : Type :=
  | Ret (a : A)
  | Fatal (f : fatal)
  | Crash
  | Diverge.

Arguments Ret {A} a.
Arguments Fatal {A} f.
Arguments Crash {A}.
Arguments Diverge {A}.

Definition obind {A B : Type} (o : outcome A) (k : A → outcome B) : outcome B :=
  match o with
  | Ret a => k a
  | Fatal f => Fatal f
  | Crash => Crash
  | Diverge => Diverge
  end.

(** ** Data model *)

(** [Workspace*]; a workspace pointer that is not in the heap is dangling. *)
Abbreviation addr := nat (only parsing).
(** A non-null [Tensor*]. *)
Abbreviation ptr := nat (only parsing).
(** [Tensor*] as returned to callers and [unique_ptr<Tensor>] as stored:
    [None] is [nullptr]. *)
Abbreviation handle := (option nat) (only parsing).
(** [GraphBase] objects are executed by the graph engine, which is not part
    of this header; a stored graph is an opaque identifier. *)
Abbreviation GraphBase := nat (only parsing).

(** Modelled from the spec: class [Tensor] (core/tensor.h) is not in this
    header.  The spec describes a tensor as an opaque resource with a stable
    name and a reset operation that releases its backing storage without
    destroying the registry entry; [resets] counts the calls of [Reset]. *)
Record Tensor : Type := mkTensor {
  t_name : string;
  t_backed : bool;
  t_resets : nat
}.

(** [new Tensor(name)]. *)
Definition new_Tensor (name : string) : Tensor :=
  {| t_name := name; t_backed := false; t_resets := 0 |}.

(** [Tensor::Reset()]. *)
Definition Reset (t : Tensor) : Tensor :=
  {| t_name := t_name t; t_backed := false; t_resets := S (t_resets t) |}.

(** Modelled from the spec: the container [Map] (core/common.h) is not in
    this header.  For [workspace_map_], whose iteration order decides which
    composed workspace answers first, the spec fixes the order as the
    composition insertion order, so it is kept as an association list in
    that order.  The other maps are only accessed by key. *)
Record Workspace : Type := mkWorkspace {
  name_ : string;
  workspace_map_ : list (string * addr);
  tensor_map_ : gmap string handle;
  buffer_map_ : gmap string (list string);   (* a stack: head = top *)
  graph_map_ : gmap string GraphBase;
  rename_map_ : gmap string string
}.

Record World : Type := mkWorld {
  workspaces : gmap addr Workspace;
  tensors : gmap ptr Tensor;
  errlog : list string                       (* LOG(ERROR) lines, oldest first *)
}.

Definition empty_world : World :=
  {| workspaces := ∅; tensors := ∅; errlog := [] |}.

Definition set_tensor_map (f : gmap string handle → gmap string handle)
    (ws : Workspace) : Workspace :=
  {| name_ := name_ ws; workspace_map_ := workspace_map_ ws;
     tensor_map_ := f (tensor_map_ ws); buffer_map_ := buffer_map_ ws;
     graph_map_ := graph_map_ ws; rename_map_ := rename_map_ ws |}.

Definition set_buffer_map (f : gmap string (list string) → gmap string (list string))
    (ws : Workspace) : Workspace :=
  {| name_ := name_ ws; workspace_map_ := workspace_map_ ws;
     tensor_map_ := tensor_map_ ws; buffer_map_ := f (buffer_map_ ws);
     graph_map_ := graph_map_ ws; rename_map_ := rename_map_ ws |}.

Definition set_rename_map (f : gmap string string → gmap string string)
    (ws : Workspace) : Workspace :=
  {| name_ := name_ ws; workspace_map_ := workspace_map_ ws;
     tensor_map_ := tensor_map_ ws; buffer_map_ := buffer_map_ ws;
     graph_map_ := graph_map_ ws; rename_map_ := f (rename_map_ ws) |}.

Definition set_workspace_map (f : list (string * addr) → list (string * addr))
    (ws : Workspace) : Workspace :=
  {| name_ := name_ ws; workspace_map_ := f (workspace_map_ ws);
     tensor_map_ := tensor_map_ ws; buffer_map_ := buffer_map_ ws;
     graph_map_ := graph_map_ ws; rename_map_ := rename_map_ ws |}.

Definition put_workspace (this : addr) (ws : Workspace) (w : World) : World :=
  {| workspaces := <[this := ws]> (workspaces w); tensors := tensors w;
     errlog := errlog w |}.

Definition set_tensors (f : gmap ptr Tensor → gmap ptr Tensor) (w : World) : World :=
  {| workspaces := workspaces w; tensors := f (tensors w); errlog := errlog w |}.

Definition log_error (line : string) (w : World) : World :=
  {| workspaces := workspaces w; tensors := tensors w;
     errlog := errlog w ++ [line] |}.

(** ** The monad of member functions: state passing over [World] *)

Definition M (A : Type) : Type := World → outcome (A * World).

Definition mret {A : Type} (a : A) : M A := λ w, Ret (a, w).

Definition mbind {A B : Type} (m : M A) (k : A → M B) : M B :=
  λ w, match m w with
       | Ret (a, w') => k a w'
       | Fatal f => Fatal f
       | Crash => Crash
       | Diverge => Diverge
       end.

Definition mfatal {A : Type} (f : fatal) : M A := λ _, Fatal f.

(** A read-only call, which leaves the world as it is. *)
Definition mpure {A : Type} (f : World → outcome A) : M A :=
  λ w, obind (f w) (λ a, Ret (a, w)).

Declare Scope ws_scope.
Notation "x ←ₘ m ; k" := (mbind m (λ x, k))
  (at level 100, m at next level, right associativity) : ws_scope.
Notation "m ;;ₘ k" := (mbind m (λ _, k))
  (at level 100, right associativity) : ws_scope.
Open Scope ws_scope.

(** [*this]. *)
Definition self (this : addr) : M Workspace :=
  λ w, match workspaces w !! this with
       | Some ws => Ret (ws, w)
       | None => Crash
       end.

Definition modify_self (this : addr) (f : Workspace → Workspace) : M unit :=
  ws ←ₘ self this; (λ w, Ret (tt, put_workspace this (f ws) w)).

(** ** Tensor registry *)

(** [GetTensorName]: one look-up in the alias table. *)
Definition GetTensorName (ws : Workspace) (name : string) : string :=
  match rename_map_ ws !! name with
  | Some target => target
  | None => name
  end.

(** The remote loop of [HasTensor]: [result |= it.second->HasTensor(query)]
    for every composed workspace, without short cut. *)
Definition or_remote (has : addr → outcome bool) :
    list (string * addr) → bool → outcome bool :=
  fix go l result :=
    match l with
    | [] => Ret result
    | it :: l' => obind (has it.2) (λ r, go l' (result || r))
    end.

(** [HasTensor].  The remote call takes the default [use_remote = true] and
    resolves [query] again in the remote workspace. *)
Fixpoint HasTensor (fuel : nat) (w : World) (this : addr) (name : string)
    (use_remote : bool) : outcome bool :=
  match fuel with
  | O => Diverge
  | S fuel' =>
    match workspaces w !! this with
    | None => Crash
    | Some ws =>
      let query := GetTensorName ws name in
      let result := bool_decide (is_Some (tensor_map_ ws !! query)) in
      if negb use_remote then Ret result
      else or_remote (λ b, HasTensor fuel' w b query true) (workspace_map_ ws) result
    end
  end.

(** The remote loop of [GetTensor]: the first composed workspace that
    answers [HasTensor(query)] is asked for the tensor; running off the end
    of the loop reaches [LOG(FATAL)]. *)
Definition search_remote (has : addr → outcome bool) (get : addr → outcome handle)
    (name : string) : list (string * addr) → outcome handle :=
  fix go l :=
    match l with
    | [] => Fatal (TensorNotFound name)
    | it :: l' => obind (has it.2) (λ b, if b : bool then get it.2 else go l')
    end.

(** [GetTensor]. *)
Fixpoint GetTensor (fuel : nat) (w : World) (this : addr) (name : string)
    (use_remote : bool) : outcome handle :=
  match fuel with
  | O => Diverge
  | S fuel' =>
    match workspaces w !! this with
    | None => Crash
    | Some ws =>
      let query := GetTensorName ws name in
      match tensor_map_ ws !! query with
      | Some h => Ret h
      | None =>
        if use_remote then
          search_remote (λ b, HasTensor fuel' w b query true)
                        (λ b, GetTensor fuel' w b query true)
                        name (workspace_map_ ws)
        else Fatal (TensorNotFound name)
      end
    end
  end.

(** [tensor_map_[key].get()]: [operator[]] default-inserts a null
    [unique_ptr] when the key is absent. *)
Definition tensor_at (this : addr) (key : string) : M handle :=
  ws ←ₘ self this;
  match tensor_map_ ws !! key with
  | Some h => mret h
  | None => modify_self this (set_tensor_map <[key := None]>) ;;ₘ mret None
  end.

(** [new Tensor(name)] at an unused address. *)
Definition alloc_tensor (t : Tensor) : M ptr :=
  λ w, let p := fresh (dom (tensors w)) in Ret (p, set_tensors <[p := t]> w).

(** [tensor_map_[key] = unique_ptr<Tensor>(new Tensor(key))]: the tensor a
    previous non-null entry owned is destroyed. *)
Definition assign_new_tensor (this : addr) (key : string) : M unit :=
  p ←ₘ alloc_tensor (new_Tensor key);
  ws ←ₘ self this;
  (match tensor_map_ ws !! key with
   | Some (Some old) => (λ w, Ret (tt, set_tensors (delete old) w))
   | _ => mret tt
   end) ;;ₘ
  modify_self this (set_tensor_map <[key := Some p]>).

(** [CreateTensor].  The existence test is [HasTensor(query)]: it is given
    the name that is already resolved, and takes the default
    [use_remote = true]. *)
Definition CreateTensor (fuel : nat) (this : addr) (name : string) : M handle :=
  ws ←ₘ self this;
  let query := GetTensorName ws name in
  has ←ₘ mpure (λ w, HasTensor fuel w this query true);
  (if negb has then assign_new_tensor this query else mret tt) ;;ₘ
  tensor_at this query.

(** [p->Reset()] on a live tensor. *)
Definition reset_tensor (h : handle) : M unit :=
  λ w, match h with
       | None => Crash
       | Some p =>
         match tensors w !! p with
         | Some t => Ret (tt, set_tensors <[p := Reset t]> w)
         | None => Crash
         end
       end.

(** [ReleaseTensor].  [HasTensor(name, false)] never enters the remote
    loop, so one unit of fuel is all it uses. *)
Definition ReleaseTensor (this : addr) (name : string) : M unit :=
  has ←ₘ mpure (λ w, HasTensor 1 w this name false);
  if negb has then mfatal (NotInWorkspace name)
  else
    ws ←ₘ self this;
    let query := GetTensorName ws name in
    h ←ₘ tensor_at this query;
    reset_tensor h.

(** [CreateRename]. *)
Definition CreateRename (this : addr) (old_tensor new_tensor : string) : M unit :=
  modify_self this (set_rename_map <[old_tensor := new_tensor]>).

(** ** Composition *)

(** [MoveWorkspace]: first attach under a name wins. *)
Definition MoveWorkspace (this : addr) (ws : option addr) : M addr :=
  match ws with
  | None => mfatal InvalidWorkspace
  | Some b =>
    other ←ₘ self b;
    me ←ₘ self this;
    match list_find (λ it, it.1 = name_ other) (workspace_map_ me) with
    | Some (_, it) => mret it.2
    | None =>
      modify_self this (set_workspace_map (λ l, l ++ [(name_ other, b)])) ;;ₘ
      mret b
    end
  end.

(** ** Buffer pool *)

(** [buffer_map_[category]]: [operator[]] default-inserts an empty stack. *)
Definition buffer_at (this : addr) (category : string) : M (list string) :=
  ws ←ₘ self this;
  match buffer_map_ ws !! category with
  | Some st => mret st
  | None => modify_self this (set_buffer_map <[category := []]>) ;;ₘ mret []
  end.

(** Modelled from the spec: [dragon_cast<string, int>] (utils/string.h) is
    not in this header; the spec only says that the buffer names are derived
    deterministically from the category and an index.  It is taken as the
    decimal rendering of the integer. *)
Definition dragon_cast (i : Z) : string := pretty i.

Definition buffer_name (category : string) (i : Z) : string :=
  "_t_" +:+ category +:+ "_buffer_" +:+ dragon_cast i.

(** The body of the loop of [CreateBuffer], run [k] times from index [i]. *)
Fixpoint CreateBuffer_loop (fuel : nat) (this : addr) (category : string)
    (k : nat) (i : Z) : M unit :=
  match k with
  | O => mret tt
  | S k' =>
    let name := buffer_name category i in
    st ←ₘ buffer_at this category;
    modify_self this (set_buffer_map <[category := name :: st]>) ;;ₘ
    CreateTensor fuel this name ;;ₘ
    CreateBuffer_loop fuel this category k' (i + 1)
  end.

(** [CreateBuffer]: [for (int i = 1; i <= num; i++)]. *)
Definition CreateBuffer (fuel : nat) (this : addr) (category : string)
    (num : Z) : M unit :=
  ws ←ₘ self this;
  if bool_decide (is_Some (buffer_map_ ws !! category))
  then mfatal (DuplicateCategory category)
  else
    modify_self this (set_buffer_map <[category := []]>) ;;ₘ
    CreateBuffer_loop fuel this category (Z.to_nat num) 1.

(** [GetBuffer]. *)
Definition GetBuffer (this : addr) (category : string) : M handle :=
  st ←ₘ buffer_at this category;
  match st with
  | name :: rest =>
    modify_self this (set_buffer_map <[category := rest]>) ;;ₘ
    tensor_at this name
  | [] => mfatal (BuffersNotEnough category)
  end.

Definition WORKSPACE_COMMON_BUFFER_SIZE : Z := 2.
Definition WORKSPACE_GRAD_BUFFER_SIZE : Z := 1.

(** The function-static table of [ReleaseBuffer]. *)
Definition limits : gmap string Z :=
  {[ "Common" := WORKSPACE_COMMON_BUFFER_SIZE; "Grad" := WORKSPACE_GRAD_BUFFER_SIZE ]}.

(** [limits[category]]: [operator[]] inserts and yields 0 for a category
    that is not in the table; the inserted 0 is what every later look-up of
    that category yields as well, so the table is read as a constant. *)
Definition limit_of (category : string) : Z := default 0 (limits !! category).

(** The [int] limit is converted to [size_t] for the comparison with
    [stack::size()]. *)
Definition to_size_t (z : Z) : Z := z `mod` 2 ^ 64.

(** [tensor->name()]. *)
Definition tensor_name (tensor : handle) : M string :=
  λ w, match tensor with
       | None => Crash
       | Some p =>
         match tensors w !! p with
         | Some t => Ret (t_name t, w)
         | None => Crash
         end
       end.

(** [ReleaseBuffer]. *)
Definition ReleaseBuffer (this : addr) (tensor : handle) (category : string)
    (enforce : bool) : M unit :=
  st ←ₘ buffer_at this category;
  if (to_size_t (limit_of category) <=? Z.of_nat (length st)) || enforce then
    name ←ₘ tensor_name tensor;
    ReleaseTensor this name
  else
    name ←ₘ tensor_name tensor;
    st' ←ₘ buffer_at this category;
    modify_self this (set_buffer_map <[category := name :: st']>).

(** ** Construction *)

(** [init]. *)
Definition init (fuel : nat) (this : addr) : M unit :=
  CreateTensor fuel this "ignore" ;;ₘ
  CreateBuffer fuel this "Common" WORKSPACE_COMMON_BUFFER_SIZE ;;ₘ
  CreateBuffer fuel this "Grad" WORKSPACE_GRAD_BUFFER_SIZE.

Definition blank_Workspace (name : string) : Workspace :=
  {| name_ := name; workspace_map_ := []; tensor_map_ := ∅; buffer_map_ := ∅;
     graph_map_ := ∅; rename_map_ := ∅ |}.

(** [new Workspace(name)]: the object is placed at an unused address and
    [init] runs on it. *)
Definition new_Workspace (fuel : nat) (name : string) : M addr :=
  λ w, let this := fresh (dom (workspaces w)) in
       (init fuel this ;;ₘ mret this) (put_workspace this (blank_Workspace name) w).

(** ** Graph index *)

Section Graph.

(** [GraphBase::Run(include, exclude)], the graph engine: it may read and
    write the whole world. *)
Variable Run : GraphBase → string → string → M bool.

(** [RunGraph]. *)
Definition RunGraph (this : addr) (graph_name include exclude : string) : M bool :=
  ws ←ₘ self this;
  match graph_map_ ws !! graph_name with
  | None =>
    (λ w, Ret (false, log_error ("Graph(" +:+ graph_name +:+ ") does not exist.") w))
  | Some g => Run g include exclude
  end.

End Graph.

(** ** Running small programs *)

Definition world_of {A : Type} (o : outcome (A * World)) : World :=
  match o with Ret (_, w) => w | _ => empty_world end.

(** ** Scenarios *)

(** Workspace [B] owns tensor [x]; workspace [A] is then constructed and
    composed with [B]. *)
Definition remote_owner_setup : M (addr * addr) :=
  B ←ₘ new_Workspace 1 "B";
  CreateTensor 1 B "x" ;;ₘ
  A ←ₘ new_Workspace 1 "A";
  MoveWorkspace A (Some B) ;;ₘ
  mret (A, B).

(** Workspace [W] owns tensor [final]; then the aliases [old → mid] and
    [mid → final] are defined. *)
Definition alias_chain_setup : M addr :=
  W ←ₘ new_Workspace 1 "W";
  CreateTensor 1 W "final" ;;ₘ
  CreateRename W "old" "mid" ;;ₘ
  CreateRename W "mid" "final" ;;ₘ
  mret W.

(** The local entry of workspace [this] under [key], if any. *)
Definition local_entry (w : World) (this : addr) (key : string) : option handle :=
  ws ← workspaces w !! this; tensor_map_ ws !! key.

(** The stack of [category] in workspace [this], if any. *)
Definition local_stack (w : World) (this : addr) (category : string) :
    option (list string) :=
  ws ← workspaces w !! this; buffer_map_ ws !! category.

(** ** Well-founded composition *)

(** [wf_depth d w a]: every chain of composed workspaces that starts at [a]
    stays inside the heap and ends within [d] hops, so the composition
    below [a] has no cycle and no dangling pointer. *)
Fixpoint wf_depth (d : nat) (w : World) (a : addr) : bool :=
  match d with
  | O => false
  | S d' =>
    match workspaces w !! a with
    | None => false
    | Some ws => forallb (λ it, wf_depth d' w it.2) (workspace_map_ ws)
    end
  end.

(** [o] is the normal return of [true]. *)
Definition returns_true (o : outcome bool) : bool :=
  match o with Ret true => true | _ => false end.

(** A fresh workspace with one more tensor, [extra]: both "Common" buffers
    are acquired and then released without [enforce]. *)
Definition pool_round_trip : M (addr * handle * handle * handle) :=
  W ←ₘ new_Workspace 1 "W";
  extra ←ₘ CreateTensor 1 W "extra";
  b1 ←ₘ GetBuffer W "Common";
  b2 ←ₘ GetBuffer W "Common";
  ReleaseBuffer W b1 "Common" false ;;ₘ
  ReleaseBuffer W b2 "Common" false ;;ₘ
  mret (W, b1, b2, extra).

(** [avoids d w this b]: the composition below [b] is well founded within
    [d] hops and never comes back to [this]. *)
Fixpoint avoids (d : nat) (w : World) (this b : addr) : bool :=
  match d with
  | O => false
  | S d' =>
    negb (bool_decide (b = this)) &&
    match workspaces w !! b with
    | None => false
    | Some wb => forallb (λ it, avoids d' w this it.2) (workspace_map_ wb)
    end
  end.

(** The world in which workspace [this], so far [ws], has tensor map [tm]
    and buffer map [bm], and the tensor heap is [ts]: the shape of the world
    after member functions of [this] that touch the registry and the pool. *)
Definition local_update (this : addr) (ws : Workspace) (tm : gmap string handle)
    (bm : gmap string (list string)) (ts : gmap ptr Tensor) (w : World) : World :=
  {| workspaces :=
       <[this := {| name_ := name_ ws; workspace_map_ := workspace_map_ ws;
                    tensor_map_ := tm; buffer_map_ := bm;
                    graph_map_ := graph_map_ ws; rename_map_ := rename_map_ ws |}]>
         (workspaces w);
     tensors := ts; errlog := errlog w |}.

(** Some composed workspace of [ws] answers [HasTensor(query)] with [true]. *)
Definition remote_has (fuel : nat) (w : World) (ws : Workspace) (query : string) : bool :=
  existsb (λ it, returns_true (HasTensor fuel w it.2 query true)) (workspace_map_ ws).

(** ** The pool invariant *)

(** Every name on a stack of the pool is a key of the local tensor map. *)
Definition pool_names_registered (tm : gmap string handle)
    (bm : gmap string (list string)) : Prop :=
  ∀ category st name,
    bm !! category = Some st → name ∈ st → is_Some (tm !! name).

Definition buffer_inv (ws : Workspace) : Prop :=
  pool_names_registered (tensor_map_ ws) (buffer_map_ ws).

(** The names [CreateBuffer(category, num)] generates, in loop order. *)
Definition buffer_names (category : string) (i : Z) (k : nat) : list string :=
  (λ j, buffer_name category (i + Z.of_nat j)) <$> seq 0 k.

(** What [CreateTensor] returns and leaves behind, given the answer [has]
    of its existence test: the handle, the tensor map and the tensor heap. *)
Definition CreateTensor_outcome (has : bool) (query : string)
    (tm : gmap string handle) (ts : gmap ptr Tensor) :
    handle * gmap string handle * gmap ptr Tensor :=
  if has then
    let h := default None (tm !! query) in (h, <[query := h]> tm, ts)
  else
    let p := fresh (dom ts) in
    (Some p, <[query := Some p]> tm,
     match tm !! query with
     | Some (Some old) => delete old (<[p := new_Tensor query]> ts)
     | _ => <[p := new_Tensor query]> ts
     end).


(** A fresh workspace in which the first buffer name of a category [X] is
    an alias of the second. *)
Definition aliased_buffer_setup : M addr :=
  W ←ₘ new_Workspace 1 "W";
  CreateRename W "_t_X_buffer_1" "_t_X_buffer_2" ;;ₘ
  mret W.


(** The workspace at [a], for worlds in which there is one. *)
Definition workspace_at (w : World) (a : addr) : Workspace :=
  default (blank_Workspace "") (workspaces w !! a).

(** The world with one fresh workspace "W", at address 0. *)
Definition fresh_world : World := world_of (new_Workspace 1 "W" empty_world).

(** The world of [remote_owner_setup]: [B] at address 0, [A] at address 1. *)
Definition remote_owner_world : World := world_of (remote_owner_setup empty_world).

(** A graph engine whose every run succeeds and changes nothing. *)
Definition idle_Run : GraphBase → string → string → M bool := λ _ _ _, mret true.

(** Two worlds built from the same updates are equal. *)
Ltac world_eq :=
  unfold local_update, put_workspace, set_tensors, set_tensor_map, set_buffer_map;
  cbn; rewrite ?insert_insert_eq; reflexivity.

(** ** Listings *)

(** The remote loop of [GetTensors]: the names of every composed workspace
    are appended, in the order of [workspace_map_]. *)
Definition append_remote (get : addr → outcome (list string)) :
    list (string * addr) → list string → outcome (list string) :=
  fix go l names :=
    match l with
    | [] => Ret names
    | it :: l' => obind (get it.2) (λ sub_names, go l' (names ++ sub_names))
    end.

(** [GetTensors].  Modelled from the spec: the container [Map]
    (core/common.h) is not in this header, so the order in which the loop
    over [tensor_map_] meets the keys is not known; the keys are listed in
    the order of [map_to_list], and nothing proved below depends on it. *)
Fixpoint GetTensors (fuel : nat) (w : World) (this : addr) : outcome (list string) :=
  match fuel with
  | O => Diverge
  | S fuel' =>
    match workspaces w !! this with
    | None => Crash
    | Some ws =>
      append_remote (λ b, GetTensors fuel' w b) (workspace_map_ ws)
        (map_to_list (tensor_map_ ws)).*1
    end
  end.

(** [GetGraphs], with the same reading of the loop over [graph_map_]. *)
Definition GetGraphs (this : addr) : M (list string) :=
  ws ←ₘ self this; mret (map_to_list (graph_map_ ws)).*1.

(** ** Filler table *)

(** Modelled from the spec: [TensorFiller] is a message type declared
    outside this header; the spec describes it as a filler specification
    with a tensor-name accessor.  [filler_type] stands for the rest of its
    content. *)
Record TensorFiller : Type := mkTensorFiller {
  filler_tensor : string;
  filler_type : string
}.

(** [CreateFiller] either returns with the table it leaves or fails
    [CHECK_GT(filler.tensor().size(), 0)]. *)
Inductive filler_outcome : Type :=
  | FillerRet (filler_map_ : gmap string TensorFiller)
  | FillerWithoutName.

(** [CreateFiller], on the member [filler_map_]. *)
Definition CreateFiller (filler : TensorFiller)
    (filler_map_ : gmap string TensorFiller) : filler_outcome :=
  if bool_decide (0 < String.length (filler_tensor filler))%nat then
    if bool_decide (is_Some (filler_map_ !! filler_tensor filler))
    then FillerRet filler_map_
    else FillerRet (<[filler_tensor filler := filler]> filler_map_)
  else FillerWithoutName.

(** [GetFiller]: the stored filler, [None] for [nullptr]. *)
Definition GetFiller (name : string) (filler_map_ : gmap string TensorFiller) :
    option TensorFiller :=
  filler_map_ !! name.

(** [CreateFiller] for every filler of a list, in order. *)
Fixpoint CreateFillers (fillers : list TensorFiller)
    (filler_map_ : gmap string TensorFiller) : filler_outcome :=
  match fillers with
  | [] => FillerRet filler_map_
  | filler :: rest =>
    match CreateFiller filler filler_map_ with
    | FillerRet m => CreateFillers rest m
    | FillerWithoutName => FillerWithoutName
    end
  end.

(** ** Ownership of tensors *)

(** Every non-null entry of every tensor map points to a live tensor whose
    name is the key of the entry, and no tensor is pointed to from two
    entries. *)
Definition registry_ok (w : World) : Prop :=
  (∀ a ws key p, workspaces w !! a = Some ws → tensor_map_ ws !! key = Some (Some p) →
     ∃ t, tensors w !! p = Some t ∧ t_name t = key) ∧
  (∀ a a' ws ws' key key' p,
     workspaces w !! a = Some ws → workspaces w !! a' = Some ws' →
     tensor_map_ ws !! key = Some (Some p) → tensor_map_ ws' !! key' = Some (Some p) →
     a = a' ∧ key = key').


(** A workspace composed with itself. *)
Definition self_composed_setup : M addr :=
  A ←ₘ new_Workspace 1 "A";
  MoveWorkspace A (Some A) ;;ₘ
  mret A.

Definition self_composed_world : World := world_of (self_composed_setup empty_world).

(** ** Calls *)

(** The member functions that write to the registry, the pool, the aliases
    or the composition, with their arguments. *)
Inductive method : Type :=
  | CallCreateTensor (name : string)
  | CallReleaseTensor (name : string)
  | CallCreateRename (old_tensor new_tensor : string)
  | CallMoveWorkspace (ws : option addr)
  | CallCreateBuffer (category : string) (num : Z)
  | CallGetBuffer (category : string)
  | CallReleaseBuffer (tensor : handle) (category : string) (enforce : bool).

(** The call of a member function on [this], its result dropped. *)
Definition invoke (fuel : nat) (this : addr) (m : method) : M unit :=
  match m with
  | CallCreateTensor name => CreateTensor fuel this name ;;ₘ mret tt
  | CallReleaseTensor name => ReleaseTensor this name
  | CallCreateRename old_tensor new_tensor => CreateRename this old_tensor new_tensor
  | CallMoveWorkspace ws => MoveWorkspace this ws ;;ₘ mret tt
  | CallCreateBuffer category num => CreateBuffer fuel this category num
  | CallGetBuffer category => GetBuffer this category ;;ₘ mret tt
  | CallReleaseBuffer tensor category enforce =>
    ReleaseBuffer this tensor category enforce
  end.

(** What a client does: construct a workspace or call a member function. *)
Inductive call : Type :=
  | NewWorkspace (name : string)
  | Invoke (this : addr) (m : method).

Definition step (fuel : nat) (c : call) : M unit :=
  match c with
  | NewWorkspace name => new_Workspace fuel name ;;ₘ mret tt
  | Invoke this m => invoke fuel this m
  end.

(** A sequence of calls, each with its own recursion fuel. *)
Fixpoint run (cs : list (nat * call)) : M unit :=
  match cs with
  | [] => mret tt
  | (fuel, c) :: rest => step fuel c ;;ₘ run rest
  end.

Definition changes_aliases (m : method) : bool :=
  match m with CallCreateRename _ _ => true | _ => false end.

Definition changes_composition (m : method) : bool :=
  match m with CallMoveWorkspace _ => true | _ => false end.

(** [entry w a key p]: workspace [a] stores the tensor [p] under [key]. *)
Definition entry (w : World) (a : addr) (key : string) (p : ptr) : Prop :=
  ∃ ws, workspaces w !! a = Some ws ∧ tensor_map_ ws !! key = Some (Some p).

(** [k] calls of [GetBuffer(category)] in a row, with the handles they
    return. *)
Fixpoint GetBuffers (this : addr) (category : string) (k : nat) : M (list handle) :=
  match k with
  | O => mret []
  | S k' =>
    h ←ₘ GetBuffer this category;
    hs ←ₘ GetBuffers this category k';
    mret (h :: hs)
  end.

(** Workspace [B] at address 0 owns [x]; workspace [A] at address 1 is not
    composed with anything yet. *)
Definition two_workspaces_world : World :=
  world_of ((B ←ₘ new_Workspace 1 "B";
             CreateTensor 1 B "x" ;;ₘ
             new_Workspace 1 "A") empty_world).

(** The fresh world after one [GetBuffer("Common")]. *)
Definition one_taken_world : World := world_of (GetBuffer 0 "Common" fresh_world).

(** * Properties *)

(** C1 (code defect): [CreateTensor] does search the composed workspaces.
    With [A] composed with [B] and [B] owning [x], [A] has no local entry
    for [x], yet [A.CreateTensor("x")] allocates no tensor: it plants a null
    entry under [x] in [A] and returns the null handle, which
    [A.GetTensor("x")] then returns as well. *)
Theorem CreateTensor_remote_owner_returns_null :
  ∃ A B w p,
    remote_owner_setup empty_world = Ret ((A, B), w) ∧
    local_entry w A "x" = None ∧
    local_entry w B "x" = Some (Some p) ∧
    ∃ w', CreateTensor 2 A "x" w = Ret (None, w') ∧
          tensors w' = tensors w ∧
          local_entry w' A "x" = Some None ∧
          HasTensor 2 w' A "x" false = Ret true ∧
          GetTensor 2 w' A "x" true = Ret None.
Proof.
  eexists _, _, _, _. split; [vm_compute; reflexivity|].
  split; [vm_compute; reflexivity|].
  split; [vm_compute; reflexivity|].
  eexists. split; [vm_compute; reflexivity|].
  repeat split; vm_compute; reflexivity.
Qed.

(** C3 (code defect): [CreateTensor] resolves twice.  With [old → mid] and
    [mid → final] defined and [final] stored locally, the existence test of
    [CreateTensor("old")] is answered by [final]: no tensor is created under
    [mid], a null entry is planted there and the null handle is returned. *)
Theorem CreateTensor_alias_chain_reads_final :
  ∃ W w p,
    alias_chain_setup empty_world = Ret (W, w) ∧
    local_entry w W "mid" = None ∧
    local_entry w W "final" = Some (Some p) ∧
    ∃ w', CreateTensor 1 W "old" w = Ret (None, w') ∧
          tensors w' = tensors w ∧
          local_entry w' W "mid" = Some None.
Proof.
  eexists _, _, _. split; [vm_compute; reflexivity|].
  split; [vm_compute; reflexivity|].
  split; [vm_compute; reflexivity|].
  eexists. split; [vm_compute; reflexivity|].
  split; vm_compute; reflexivity.
Qed.

(** ** Fuel and well-founded compositions *)

Lemma obind_Ret {A B : Type} (o : outcome A) (k : A → outcome B) (b : B) :
  obind o k = Ret b → ∃ a, o = Ret a ∧ k a = Ret b.
Proof. destruct o; simpl; intros H; try discriminate. eauto. Qed.

Lemma HasTensor_local (fuel : nat) (w : World) (this : addr) (ws : Workspace)
    (name : string) :
  workspaces w !! this = Some ws →
  HasTensor (S fuel) w this name false
  = Ret (bool_decide (is_Some (tensor_map_ ws !! GetTensorName ws name))).
Proof. intros Hws. simpl. rewrite Hws. reflexivity. Qed.

Lemma or_remote_ext (f g : addr → outcome bool) (l : list (string * addr)) (r : bool) :
  (∀ it, it ∈ l → f it.2 = g it.2) → or_remote f l r = or_remote g l r.
Proof.
  revert r. induction l as [|it l IH]; intros r Hfg; simpl; [done|].
  rewrite (Hfg it) by left.
  destruct (g it.2); simpl; try done.
  apply IH. intros it' Hin. apply Hfg. by right.
Qed.

Lemma search_remote_ext (f g : addr → outcome bool) (f' g' : addr → outcome handle)
    (name : string) (l : list (string * addr)) :
  (∀ it, it ∈ l → f it.2 = g it.2) →
  (∀ it, it ∈ l → f' it.2 = g' it.2) →
  search_remote f f' name l = search_remote g g' name l.
Proof.
  induction l as [|it l IH]; intros Hfg Hfg'; simpl; [done|].
  rewrite (Hfg it) by left. rewrite (Hfg' it) by left.
  destruct (g it.2) as [[]| | |]; simpl; try done.
  apply IH; intros it' Hin; [apply Hfg|apply Hfg']; by right.
Qed.

Lemma wf_depth_remote (d : nat) (w : World) (a : addr) (ws : Workspace)
    (it : string * addr) :
  wf_depth (S d) w a = true → workspaces w !! a = Some ws →
  it ∈ workspace_map_ ws → wf_depth d w it.2 = true.
Proof.
  simpl. intros Hwf Hws Hin. rewrite Hws in Hwf.
  rewrite forallb_forall in Hwf. apply (Hwf it). by apply list_elem_of_In.
Qed.

Lemma HasTensor_fuel (d : nat) (w : World) :
  ∀ (fuel : nat) (a : addr) (name : string) (r : bool),
    wf_depth d w a = true → (d ≤ fuel)%nat →
    HasTensor fuel w a name r = HasTensor d w a name r.
Proof.
  induction d as [|d IH]; intros fuel a name r Hwf Hle; [discriminate|].
  destruct fuel as [|fuel]; [lia|].
  pose proof Hwf as Hwf'. simpl in Hwf'. simpl.
  destruct (workspaces w !! a) as [ws|] eqn:Hws; [|done].
  destruct r; simpl; [|done].
  apply or_remote_ext. intros it Hin.
  apply IH; [|lia]. by eapply wf_depth_remote.
Qed.

Lemma or_remote_total (f : addr → outcome bool) (l : list (string * addr)) (r : bool) :
  (∀ it, it ∈ l → ∃ b, f it.2 = Ret b) →
  or_remote f l r
  = Ret (r || existsb (λ it, returns_true (f it.2)) l).
Proof.
  revert r. induction l as [|it l IH]; intros r Hf; simpl.
  - by rewrite orb_false_r.
  - destruct (Hf it) as [b Hb]; [by left|]. rewrite Hb. simpl.
    rewrite IH by (intros it' Hin; apply Hf; by right).
    destruct b; simpl; [by rewrite orb_true_r | by rewrite orb_false_r].
Qed.

Lemma HasTensor_total (d : nat) (w : World) :
  ∀ (a : addr) (name : string) (r : bool),
    wf_depth d w a = true → ∃ b, HasTensor d w a name r = Ret b.
Proof.
  induction d as [|d IH]; intros a name r Hwf; [discriminate|].
  pose proof Hwf as Hwf'. simpl in Hwf'. simpl.
  destruct (workspaces w !! a) as [ws|] eqn:Hws; [|done].
  destruct r; simpl; [|eauto].
  rewrite or_remote_total; [eauto|].
  intros it Hin. apply IH. by eapply wf_depth_remote.
Qed.

Lemma search_remote_first (has : addr → outcome bool) (get : addr → outcome handle)
    (name : string) (l1 l2 : list (string * addr)) (it : string * addr) :
  (∀ it', it' ∈ l1 → has it'.2 = Ret false) →
  has it.2 = Ret true →
  search_remote has get name (l1 ++ it :: l2) = get it.2.
Proof.
  induction l1 as [|it1 l1 IH]; intros Hl1 Hit; simpl.
  - by rewrite Hit.
  - rewrite (Hl1 it1) by left. simpl. apply IH; [|done].
    intros it' Hin. apply Hl1. by right.
Qed.

Lemma search_remote_none (has : addr → outcome bool) (get : addr → outcome handle)
    (name : string) (l : list (string * addr)) :
  (∀ it, it ∈ l → has it.2 = Ret false) →
  search_remote has get name l = Fatal (TensorNotFound name).
Proof.
  induction l as [|it l IH]; intros Hl; simpl; [done|].
  rewrite (Hl it) by left. simpl. apply IH. intros it' Hin. apply Hl. by right.
Qed.

(** In a total loop either some composed workspace is the first to answer
    [true], or all of them answer [false]. *)
Lemma first_match_or_none (has : addr → outcome bool) (l : list (string * addr)) :
  (∀ it, it ∈ l → ∃ b, has it.2 = Ret b) →
  (∃ l1 it l2, l = l1 ++ it :: l2 ∧
     (∀ it', it' ∈ l1 → has it'.2 = Ret false) ∧ has it.2 = Ret true)
  ∨ (∀ it, it ∈ l → has it.2 = Ret false).
Proof.
  induction l as [|it l IH]; intros Hl.
  - right. intros it Hin. by apply not_elem_of_nil in Hin.
  - destruct (Hl it) as [[] Hb]; [by left| |].
    + left. exists [], it, l. split; [done|]. split; [|done].
      intros it' Hin. by apply not_elem_of_nil in Hin.
    + destruct IH as [(l1 & it0 & l2 & -> & Hl1 & Hit0)|Hnone].
      * intros it' Hin. apply Hl. by right.
      * left. exists (it :: l1), it0, l2. split; [done|]. split; [|done].
        intros it' Hin. apply elem_of_cons in Hin as [->|Hin]; auto.
      * right. intros it' Hin. apply elem_of_cons in Hin as [->|Hin]; auto.
Qed.

Lemma GetTensor_fuel (d : nat) (w : World) :
  ∀ (fuel : nat) (a : addr) (name : string) (r : bool),
    wf_depth d w a = true → (d ≤ fuel)%nat →
    GetTensor fuel w a name r = GetTensor d w a name r.
Proof.
  induction d as [|d IH]; intros fuel a name r Hwf Hle; [discriminate|].
  destruct fuel as [|fuel]; [lia|].
  pose proof Hwf as Hwf'. simpl in Hwf'. simpl.
  destruct (workspaces w !! a) as [ws|] eqn:Hws; [|done].
  destruct (tensor_map_ ws !! GetTensorName ws name); [done|].
  destruct r; [|done].
  apply search_remote_ext; intros it Hin.
  - apply HasTensor_fuel; [|lia]. by eapply wf_depth_remote.
  - apply IH; [|lia]. by eapply wf_depth_remote.
Qed.

(** A workspace that answers [HasTensor] with [true] hands out a handle, and
    one that answers [false] ends in [LOG(FATAL)]. *)
Lemma HasTensor_GetTensor (d : nat) (w : World) :
  ∀ (a : addr) (name : string),
    wf_depth d w a = true →
    (HasTensor d w a name true = Ret true ∧ ∃ h, GetTensor d w a name true = Ret h)
    ∨ (HasTensor d w a name true = Ret false ∧
       GetTensor d w a name true = Fatal (TensorNotFound name)).
Proof.
  induction d as [|d IH]; intros a name Hwf; [discriminate|].
  pose proof Hwf as Hwf'. simpl in Hwf'. simpl.
  destruct (workspaces w !! a) as [ws|] eqn:Hws; [|done].
  set (query := GetTensorName ws name).
  assert (Htot : ∀ it, it ∈ workspace_map_ ws →
            ∃ b, HasTensor d w it.2 query true = Ret b).
  { intros it Hin. apply HasTensor_total. by eapply wf_depth_remote. }
  rewrite or_remote_total by done.
  destruct (tensor_map_ ws !! query) as [h|] eqn:Hq.
  - left. rewrite bool_decide_true by eauto. eauto.
  - rewrite bool_decide_false by (intros [? ?]; discriminate). simpl.
    destruct (first_match_or_none (λ b, HasTensor d w b query true)
                (workspace_map_ ws) Htot)
      as [(l1 & it & l2 & Hl & Hl1 & Hit)|Hnone].
    + left. split.
      * f_equal. apply existsb_exists. exists it. split.
        -- apply list_elem_of_In. rewrite Hl. apply elem_of_app. right. by left.
        -- by rewrite Hit.
      * rewrite Hl.
        rewrite (search_remote_first (λ b, HasTensor d w b query true)
                   (λ b, GetTensor d w b query true) name l1 l2 it Hl1 Hit).
        destruct (IH it.2 query) as [[_ Hget]|[Hhas _]]; [|done|congruence].
        eapply wf_depth_remote; [done..|].
        rewrite Hl. apply elem_of_app. right. by left.
    + right. split.
      * f_equal. apply not_true_iff_false. intros Hex.
        apply existsb_exists in Hex as (it & Hin & Hit).
        apply list_elem_of_In in Hin.
        rewrite (Hnone it Hin) in Hit. discriminate.
      * by apply (search_remote_none (λ b, HasTensor d w b query true)).
Qed.

(** ** GetTensor *)



(** ** Stepping through member functions *)

Lemma mbind_ret {A B : Type} (m : M A) (k : A → M B) (w w' : World) (a : A) :
  m w = Ret (a, w') → mbind m k w = k a w'.
Proof. unfold mbind. by intros ->. Qed.

Lemma mbind_inv {A B : Type} (m : M A) (k : A → M B) (w w'' : World) (b : B) :
  mbind m k w = Ret (b, w'') → ∃ a w', m w = Ret (a, w') ∧ k a w' = Ret (b, w'').
Proof.
  unfold mbind. destruct (m w) as [[a w']| | |]; try discriminate. eauto.
Qed.

Lemma self_ret (this : addr) (w : World) (ws : Workspace) :
  workspaces w !! this = Some ws → self this w = Ret (ws, w).
Proof. unfold self. by intros ->. Qed.

Lemma modify_self_ret (this : addr) (f : Workspace → Workspace) (w : World)
    (ws : Workspace) :
  workspaces w !! this = Some ws →
  modify_self this f w = Ret (tt, put_workspace this (f ws) w).
Proof. intros Hws. unfold modify_self. by rewrite (mbind_ret _ _ _ _ _ (self_ret _ _ _ Hws)). Qed.

Lemma lookup_put_workspace (this : addr) (ws : Workspace) (w : World) :
  workspaces (put_workspace this ws w) !! this = Some ws.
Proof. apply lookup_insert_eq. Qed.

Lemma put_workspace_id (this : addr) (ws : Workspace) (w : World) :
  workspaces w !! this = Some ws → put_workspace this ws w = w.
Proof.
  intros Hws. destruct w as [wss ts lg]. unfold put_workspace. simpl in *.
  by rewrite insert_id.
Qed.

Lemma put_put_workspace (this : addr) (ws ws' : Workspace) (w : World) :
  put_workspace this ws' (put_workspace this ws w) = put_workspace this ws' w.
Proof. unfold put_workspace. simpl. by rewrite insert_insert_eq. Qed.

Lemma set_buffer_map_id (category : string) (st : list string) (ws : Workspace) :
  buffer_map_ ws !! category = Some st →
  set_buffer_map <[category := st]> ws = ws.
Proof.
  intros Hst. destruct ws. unfold set_buffer_map. simpl in *. by rewrite insert_id.
Qed.

Lemma set_tensor_map_id (key : string) (h : handle) (ws : Workspace) :
  tensor_map_ ws !! key = Some h →
  set_tensor_map <[key := h]> ws = ws.
Proof.
  intros Hh. destruct ws. unfold set_tensor_map. simpl in *. by rewrite insert_id.
Qed.

(** [buffer_map_[category]] yields the stack, empty if it had to be
    inserted. *)
Lemma buffer_at_ret (this : addr) (category : string) (w : World) (ws : Workspace) :
  workspaces w !! this = Some ws →
  let st := default [] (buffer_map_ ws !! category) in
  buffer_at this category w
  = Ret (st, put_workspace this (set_buffer_map <[category := st]> ws) w).
Proof.
  intros Hws st. unfold buffer_at.
  rewrite (mbind_ret _ _ _ _ _ (self_ret _ _ _ Hws)). subst st.
  destruct (buffer_map_ ws !! category) as [st|] eqn:Hst; simpl.
  - by rewrite (set_buffer_map_id _ _ _ Hst), (put_workspace_id _ _ _ Hws).
  - by rewrite (mbind_ret _ _ _ _ _ (modify_self_ret _ _ _ _ Hws)).
Qed.

(** [tensor_map_[key].get()] yields the entry, null if it had to be
    inserted. *)
Lemma tensor_at_ret (this : addr) (key : string) (w : World) (ws : Workspace) :
  workspaces w !! this = Some ws →
  let h := default None (tensor_map_ ws !! key) in
  tensor_at this key w
  = Ret (h, put_workspace this (set_tensor_map <[key := h]> ws) w).
Proof.
  intros Hws h. unfold tensor_at.
  rewrite (mbind_ret _ _ _ _ _ (self_ret _ _ _ Hws)). subst h.
  destruct (tensor_map_ ws !! key) as [h|] eqn:Hh; simpl.
  - by rewrite (set_tensor_map_id _ _ _ Hh), (put_workspace_id _ _ _ Hws).
  - by rewrite (mbind_ret _ _ _ _ _ (modify_self_ret _ _ _ _ Hws)).
Qed.

Lemma tensor_at_present (this : addr) (key : string) (w : World) (ws : Workspace)
    (h : handle) :
  workspaces w !! this = Some ws → tensor_map_ ws !! key = Some h →
  tensor_at this key w = Ret (h, w).
Proof.
  intros Hws Hh. rewrite (tensor_at_ret _ _ _ _ Hws), Hh. simpl.
  by rewrite (set_tensor_map_id _ _ _ Hh), (put_workspace_id _ _ _ Hws).
Qed.

(** ** ReleaseTensor *)

Lemma ReleaseTensor_absent (this : addr) (name : string) (w : World) (ws : Workspace) :
  workspaces w !! this = Some ws →
  tensor_map_ ws !! GetTensorName ws name = None →
  ReleaseTensor this name w = Fatal (NotInWorkspace name).
Proof.
  intros Hws Hq. unfold ReleaseTensor, mbind, mpure.
  rewrite (HasTensor_local _ _ _ _ _ Hws), Hq.
  rewrite bool_decide_false by (intros [? ?]; discriminate). done.
Qed.

Lemma ReleaseTensor_present (this : addr) (name : string) (w : World) (ws : Workspace)
    (h : handle) :
  workspaces w !! this = Some ws →
  tensor_map_ ws !! GetTensorName ws name = Some h →
  ReleaseTensor this name w = reset_tensor h w.
Proof.
  intros Hws Hq. unfold ReleaseTensor.
  unfold mbind at 1. unfold mpure.
  rewrite (HasTensor_local _ _ _ _ _ Hws), Hq.
  rewrite bool_decide_true by eauto. simpl.
  rewrite (mbind_ret _ _ _ _ _ (self_ret _ _ _ Hws)).
  by rewrite (mbind_ret _ _ _ _ _ (tensor_at_present _ _ _ _ _ Hws Hq)).
Qed.

Lemma reset_tensor_inv (h : handle) (w w' : World) :
  reset_tensor h w = Ret (tt, w') →
  ∃ p t, h = Some p ∧ tensors w !! p = Some t ∧
         w' = set_tensors <[p := Reset t]> w.
Proof.
  unfold reset_tensor. destruct h as [p|]; [|discriminate].
  destruct (tensors w !! p) as [t|] eqn:Ht; [|discriminate].
  intros [= <-]. eauto.
Qed.

Lemma ReleaseTensor_inv (this : addr) (name : string) (w w' : World) (ws : Workspace) :
  workspaces w !! this = Some ws →
  ReleaseTensor this name w = Ret (tt, w') →
  ∃ p t, tensor_map_ ws !! GetTensorName ws name = Some (Some p) ∧
         tensors w !! p = Some t ∧ w' = set_tensors <[p := Reset t]> w.
Proof.
  intros Hws Hrel.
  destruct (tensor_map_ ws !! GetTensorName ws name) as [h|] eqn:Hq.
  - rewrite (ReleaseTensor_present _ _ _ _ _ Hws Hq) in Hrel.
    apply reset_tensor_inv in Hrel as (p & t & -> & Ht & ->). eauto.
  - rewrite (ReleaseTensor_absent _ _ _ _ Hws Hq) in Hrel. discriminate.
Qed.

(** C8: [ReleaseTensor(name)] aborts when the resolved name has no local
    entry, whatever the composed workspaces own; on a live local tensor it
    returns after [Reset] on that tensor and nothing else changes; and
    whenever it returns, the registry of every workspace is as before, so
    [HasTensor(name, false)] still answers [true]. *)
Theorem ReleaseTensor_local_only (w : World) (this : addr) (ws : Workspace)
    (name : string) :
  workspaces w !! this = Some ws →
  let query := GetTensorName ws name in
  (tensor_map_ ws !! query = None →
     ReleaseTensor this name w = Fatal (NotInWorkspace name)) ∧
  (∀ p t, tensor_map_ ws !! query = Some (Some p) → tensors w !! p = Some t →
     ReleaseTensor this name w = Ret (tt, set_tensors <[p := Reset t]> w)) ∧
  (∀ w', ReleaseTensor this name w = Ret (tt, w') →
     workspaces w' = workspaces w ∧
     HasTensor 1 w' this name false = Ret true ∧
     ∃ p t, tensor_map_ ws !! query = Some (Some p) ∧ tensors w !! p = Some t ∧
            tensors w' = <[p := Reset t]> (tensors w) ∧
            t_name (Reset t) = t_name t ∧ t_backed (Reset t) = false).
Proof.
  intros Hws query. split; [|split].
  - by apply ReleaseTensor_absent.
  - intros p t Hq Ht. rewrite (ReleaseTensor_present _ _ _ _ _ Hws Hq).
    unfold reset_tensor. by rewrite Ht.
  - intros w' Hrel.
    destruct (ReleaseTensor_inv _ _ _ _ _ Hws Hrel) as (p & t & Hq & Ht & ->).
    split; [done|]. split.
    + assert (Hws' : workspaces (set_tensors <[p:=Reset t]> w) !! this = Some ws) by done.
      rewrite (HasTensor_local _ _ _ _ _ Hws'), Hq.
      by rewrite bool_decide_true by eauto.
    + exists p, t. done.
Qed.

(** ** Buffer pool *)

Lemma limit_of_Common : limit_of "Common" = 2.
Proof. reflexivity. Qed.

Lemma limit_of_Grad : limit_of "Grad" = 1.
Proof. reflexivity. Qed.

Lemma limit_of_other (category : string) :
  category ≠ "Common" → category ≠ "Grad" → limit_of category = 0.
Proof.
  intros HC HG. unfold limit_of, limits.
  rewrite lookup_insert_ne by done. by rewrite lookup_singleton_ne.
Qed.

Lemma limit_of_range (category : string) : 0 ≤ limit_of category ≤ 2.
Proof.
  destruct (decide (category = "Common")) as [->|HC]; [by rewrite limit_of_Common|].
  destruct (decide (category = "Grad")) as [->|HG]; [by rewrite limit_of_Grad|].
  by rewrite limit_of_other.
Qed.

Lemma to_size_t_limit_of (category : string) :
  to_size_t (limit_of category) = limit_of category.
Proof.
  unfold to_size_t. pose proof (limit_of_range category).
  apply Z.mod_small. lia.
Qed.

Lemma GetBuffer_nonempty (w : World) (this : addr) (ws : Workspace)
    (category name : string) (rest : list string) :
  workspaces w !! this = Some ws →
  buffer_map_ ws !! category = Some (name :: rest) →
  let h := default None (tensor_map_ ws !! name) in
  GetBuffer this category w
  = Ret (h, put_workspace this
              (set_tensor_map <[name := h]>
                 (set_buffer_map <[category := rest]> ws)) w).
Proof.
  intros Hws Hst h. unfold GetBuffer.
  rewrite (mbind_ret _ _ _ _ _ (buffer_at_ret _ category _ _ Hws)), Hst. simpl.
  rewrite (set_buffer_map_id _ _ _ Hst), (put_workspace_id _ _ _ Hws).
  rewrite (mbind_ret _ _ _ _ _ (modify_self_ret _ _ _ _ Hws)).
  rewrite (tensor_at_ret _ name _ _ (lookup_put_workspace _ _ _)).
  by rewrite put_put_workspace.
Qed.

Lemma GetBuffer_empty (w : World) (this : addr) (ws : Workspace) (category : string) :
  workspaces w !! this = Some ws →
  default [] (buffer_map_ ws !! category) = [] →
  GetBuffer this category w = Fatal (BuffersNotEnough category).
Proof.
  intros Hws Hst. unfold GetBuffer.
  rewrite (mbind_ret _ _ _ _ _ (buffer_at_ret _ category _ _ Hws)), Hst. done.
Qed.


Lemma tensor_name_ret (p : ptr) (t : Tensor) (w : World) :
  tensors w !! p = Some t → tensor_name (Some p) w = Ret (t_name t, w).
Proof. unfold tensor_name. by intros ->. Qed.

(** The world after the evaluation of [buffer_map_[category]]. *)
Lemma ReleaseBuffer_release (w : World) (this : addr) (ws : Workspace)
    (tensor : handle) (category : string) (enforce : bool) :
  workspaces w !! this = Some ws →
  let st := default [] (buffer_map_ ws !! category) in
  limit_of category ≤ Z.of_nat (length st) ∨ enforce = true →
  ReleaseBuffer this tensor category enforce w
  = (name ←ₘ tensor_name tensor; ReleaseTensor this name)
      (put_workspace this (set_buffer_map <[category := st]> ws) w).
Proof.
  intros Hws st Hcond. unfold ReleaseBuffer.
  rewrite (mbind_ret _ _ _ _ _ (buffer_at_ret _ category _ _ Hws)). fold st.
  rewrite to_size_t_limit_of.
  replace ((limit_of category <=? Z.of_nat (length st)) || enforce) with true; [done|].
  symmetry. apply orb_true_iff.
  destruct Hcond as [?| ->]; [left; by apply Z.leb_le | by right].
Qed.

Lemma ReleaseBuffer_recover (w : World) (this : addr) (ws : Workspace)
    (p : ptr) (t : Tensor) (category : string) :
  workspaces w !! this = Some ws → tensors w !! p = Some t →
  let st := default [] (buffer_map_ ws !! category) in
  Z.of_nat (length st) < limit_of category →
  ReleaseBuffer this (Some p) category false w
  = Ret (tt, put_workspace this
               (set_buffer_map <[category := t_name t :: st]> ws) w).
Proof.
  intros Hws Ht st Hcond. unfold ReleaseBuffer.
  rewrite (mbind_ret _ _ _ _ _ (buffer_at_ret _ category _ _ Hws)). fold st.
  rewrite to_size_t_limit_of.
  replace ((limit_of category <=? Z.of_nat (length st)) || false) with false
    by (symmetry; rewrite orb_false_r; by apply Z.leb_gt).
  set (w1 := put_workspace this (set_buffer_map <[category:=st]> ws) w).
  assert (Ht1 : tensors w1 !! p = Some t) by done.
  rewrite (mbind_ret _ _ _ _ _ (tensor_name_ret _ _ _ Ht1)).
  pose proof (lookup_put_workspace this (set_buffer_map <[category:=st]> ws) w) as Hws1.
  fold w1 in Hws1.
  rewrite (mbind_ret _ _ _ _ _ (buffer_at_ret _ category _ _ Hws1)).
  cbn [buffer_map_ set_buffer_map]. rewrite lookup_insert_eq. cbn [default].
  rewrite (modify_self_ret _ _ _ _ (lookup_put_workspace _ _ _)).
  subst w1. rewrite !put_put_workspace. do 3 f_equal.
  unfold set_buffer_map. cbn. by rewrite !insert_insert_eq.
Qed.

(** C4: [ReleaseBuffer(tensor, category, enforce)] with the stack of
    [category] at or above [limits[category]], or with [enforce], is
    [ReleaseTensor(tensor->name())]: for the tensor stored locally under its
    own name that is one [Reset], and the stack is left as it is.  Below the
    limit and without [enforce] the name is pushed and no tensor is touched.
    On a fresh workspace ("Common" has limit 2), taking both buffers and
    releasing both leaves 2 names pooled, and one more release resets the
    released tensor and leaves the 2 names as they are. *)
Theorem ReleaseBuffer_capacity_rule (w : World) (this : addr) (ws : Workspace)
    (p : ptr) (t : Tensor) (category : string) (enforce : bool) :
  workspaces w !! this = Some ws → tensors w !! p = Some t →
  let st := default [] (buffer_map_ ws !! category) in
  let w1 := put_workspace this (set_buffer_map <[category := st]> ws) w in
  (limit_of category ≤ Z.of_nat (length st) ∨ enforce = true →
     ReleaseBuffer this (Some p) category enforce w
     = ReleaseTensor this (t_name t) w1 ∧
     (tensor_map_ ws !! GetTensorName ws (t_name t) = Some (Some p) →
        ReleaseBuffer this (Some p) category enforce w
        = Ret (tt, set_tensors <[p := Reset t]> w1)) ∧
     (∀ w', ReleaseBuffer this (Some p) category enforce w = Ret (tt, w') →
        local_stack w' this category = Some st)) ∧
  (Z.of_nat (length st) < limit_of category ∧ enforce = false →
     ReleaseBuffer this (Some p) category enforce w
     = Ret (tt, put_workspace this
                  (set_buffer_map <[category := t_name t :: st]> ws) w)) ∧
  (∃ W b1 b2 extra w2,
     pool_round_trip empty_world = Ret ((W, Some b1, Some b2, Some extra), w2) ∧
     limit_of "Common" = 2 ∧
     length <$> local_stack w2 W "Common" = Some 2%nat ∧
     t_resets <$> tensors w2 !! extra = Some 0%nat ∧
     ∃ w3, ReleaseBuffer W (Some extra) "Common" false w2 = Ret (tt, w3) ∧
           local_stack w3 W "Common" = local_stack w2 W "Common" ∧
           t_resets <$> tensors w3 !! extra = Some 1%nat).
Proof.
  intros Hws Ht st w1.
  assert (Hws1 : workspaces w1 !! this = Some (set_buffer_map <[category := st]> ws))
    by apply lookup_put_workspace.
  assert (Ht1 : tensors w1 !! p = Some t) by done.
  split; [|split].
  - intros Hcond.
    assert (Hrel : ReleaseBuffer this (Some p) category enforce w
                   = ReleaseTensor this (t_name t) w1).
    { rewrite (ReleaseBuffer_release _ _ _ _ _ _ Hws Hcond).
      by rewrite (mbind_ret _ _ _ _ _ (tensor_name_ret _ _ _ Ht1)). }
    split; [done|]. split.
    + intros Hq. rewrite Hrel.
      rewrite (ReleaseTensor_present _ _ _ _ (Some p) Hws1) by done.
      unfold reset_tensor. by rewrite Ht1.
    + intros w' Hret. rewrite Hrel in Hret.
      destruct (ReleaseTensor_inv _ _ _ _ _ Hws1 Hret) as (q & tq & _ & _ & ->).
      unfold local_stack. cbn [workspaces set_tensors]. rewrite Hws1. simpl.
      by rewrite lookup_insert_eq.
  - intros [Hlt ->]. by apply ReleaseBuffer_recover.
  - eexists _, _, _, _, _. split; [vm_compute; reflexivity|].
    split; [reflexivity|]. split; [vm_compute; reflexivity|].
    split; [vm_compute; reflexivity|].
    eexists. split; [vm_compute; reflexivity|].
    split; vm_compute; reflexivity.
Qed.

(** C10: a category other than "Common" and "Grad" has no row in [limits],
    so its limit reads 0 and [ReleaseBuffer] without [enforce] does what it
    does with [enforce]: it hands the tensor's name to [ReleaseTensor], and
    when it returns the stack of the category holds exactly the names it
    held before. *)
Theorem ReleaseBuffer_unlisted_category_never_pools (w : World) (this : addr)
    (ws : Workspace) (tensor : handle) (category : string) :
  workspaces w !! this = Some ws →
  category ≠ "Common" → category ≠ "Grad" →
  let st := default [] (buffer_map_ ws !! category) in
  limits !! category = None ∧ limit_of category = 0 ∧
  ReleaseBuffer this tensor category false w
  = ReleaseBuffer this tensor category true w ∧
  ReleaseBuffer this tensor category false w
  = (name ←ₘ tensor_name tensor; ReleaseTensor this name)
      (put_workspace this (set_buffer_map <[category := st]> ws) w) ∧
  (∀ w', ReleaseBuffer this tensor category false w = Ret (tt, w') →
         local_stack w' this category = Some st).
Proof.
  intros Hws HC HG st.
  assert (Hlim : limit_of category = 0) by by apply limit_of_other.
  assert (Hcond : ∀ e, limit_of category ≤ Z.of_nat (length st) ∨ e = true).
  { intros e. left. rewrite Hlim. lia. }
  split. { unfold limits. rewrite lookup_insert_ne by done. by rewrite lookup_singleton_ne. }
  split; [done|].
  rewrite (ReleaseBuffer_release _ _ _ _ _ false Hws (Hcond false)).
  rewrite (ReleaseBuffer_release _ _ _ _ _ true Hws (Hcond true)).
  split; [done|]. split; [done|].
  intros w' Hret. apply mbind_inv in Hret as (name & w1 & Hname & Hrel).
  assert (w1 = put_workspace this (set_buffer_map <[category := st]> ws) w) as ->.
  { unfold tensor_name in Hname. destruct tensor as [p|]; [|discriminate].
    cbn [tensors put_workspace] in Hname.
    destruct (tensors w !! p); [|discriminate]. by injection Hname as _ <-. }
  pose proof (lookup_put_workspace this (set_buffer_map <[category := st]> ws) w) as Hws1.
  destruct (ReleaseTensor_inv _ _ _ _ _ Hws1 Hrel) as (q & tq & _ & _ & ->).
  unfold local_stack. cbn [workspaces set_tensors]. rewrite Hws1. simpl.
  by rewrite lookup_insert_eq.
Qed.

(** ** Graph index *)

Section GraphProperties.

Variable Run : GraphBase → string → string → M bool.

(** C9: [RunGraph] on a name that is not in [graph_map_] writes one error
    line and returns [false], a normal return with everything else as it
    was; on a stored graph it is that graph's [Run(include, exclude)], with
    the outcome and the flag of that run. *)
Theorem RunGraph_unknown_or_delegate (w : World) (this : addr) (ws : Workspace)
    (graph_name include exclude : string) :
  workspaces w !! this = Some ws →
  (graph_map_ ws !! graph_name = None →
     ∃ w', RunGraph Run this graph_name include exclude w = Ret (false, w') ∧
           workspaces w' = workspaces w ∧ tensors w' = tensors w ∧
           errlog w' = errlog w ++ ["Graph(" +:+ graph_name +:+ ") does not exist."]) ∧
  (∀ g, graph_map_ ws !! graph_name = Some g →
        RunGraph Run this graph_name include exclude w = Run g include exclude w).
Proof.
  intros Hws. unfold RunGraph.
  rewrite (mbind_ret _ _ _ _ _ (self_ret _ _ _ Hws)). split.
  - intros ->. eexists. split; [reflexivity|]. done.
  - by intros g ->.
Qed.

End GraphProperties.

(** ** Compositions without cycles *)

Lemma wf_depth_S (d : nat) (w : World) :
  ∀ a, wf_depth d w a = true → wf_depth (S d) w a = true.
Proof.
  induction d as [|d IH]; intros a Hwf; [discriminate|].
  simpl in Hwf. cbn [wf_depth].
  destruct (workspaces w !! a) as [ws|]; [|done].
  rewrite forallb_forall in *. intros it Hin. apply (IH it.2). by apply Hwf.
Qed.

Lemma avoids_S (d : nat) (w : World) (this : addr) :
  ∀ b, avoids d w this b = true → avoids (S d) w this b = true.
Proof.
  induction d as [|d IH]; intros b Hav; [discriminate|].
  simpl in Hav. cbn [avoids].
  apply andb_true_iff in Hav as [Hne Hav]. rewrite Hne. simpl.
  destruct (workspaces w !! b) as [wb|]; [|done].
  rewrite forallb_forall in *. intros it Hin. apply (IH it.2). by apply Hav.
Qed.

Lemma avoids_wf_depth (d : nat) (w : World) (this : addr) :
  ∀ b, avoids d w this b = true → wf_depth d w b = true.
Proof.
  induction d as [|d IH]; intros b Hav; [discriminate|].
  simpl in Hav. apply andb_true_iff in Hav as [_ Hav]. simpl.
  destruct (workspaces w !! b) as [wb|]; [|done].
  rewrite forallb_forall in *. intros it Hin. apply (IH it.2). by apply Hav.
Qed.

(** A workspace of smaller depth than [this] cannot lead back to [this]. *)
Lemma wf_depth_avoids (d : nat) (w : World) (this : addr) :
  ∀ b, wf_depth d w b = true → wf_depth d w this = false →
       avoids d w this b = true.
Proof.
  induction d as [|d IH]; intros b Hb Hthis; [discriminate|].
  cbn [avoids]. apply andb_true_iff. split.
  - apply negb_true_iff, bool_decide_eq_false. intros ->. congruence.
  - simpl in Hb. destruct (workspaces w !! b) as [wb|]; [|done].
    rewrite forallb_forall in *. intros it Hin. apply IH; [by apply Hb|].
    destruct (wf_depth d w this) eqn:Hd; [|done].
    apply wf_depth_S in Hd. congruence.
Qed.

Lemma wf_depth_remote_avoids (d : nat) (w : World) (this : addr) (ws : Workspace) :
  wf_depth (S d) w this = true → workspaces w !! this = Some ws →
  ∀ it, it ∈ workspace_map_ ws → avoids d w this it.2 = true.
Proof.
  induction d as [|d IH]; intros Hwf Hws it Hin.
  - pose proof (wf_depth_remote _ _ _ _ _ Hwf Hws Hin) as H0. discriminate H0.
  - destruct (wf_depth (S d) w this) eqn:Hd.
    + apply avoids_S. by apply IH.
    + apply wf_depth_avoids; [|done]. by eapply wf_depth_remote.
Qed.

(** What a workspace that avoids [this] answers does not depend on [this]. *)
Lemma HasTensor_frame (d : nat) (w w' : World) (this : addr) :
  (∀ a, a ≠ this → workspaces w' !! a = workspaces w !! a) →
  ∀ (fuel : nat) (b : addr) (name : string) (r : bool),
    avoids d w this b = true → (d ≤ fuel)%nat →
    HasTensor fuel w' b name r = HasTensor fuel w b name r.
Proof.
  intros Hagree.
  induction d as [|d IH]; intros fuel b name r Hav Hle; [discriminate|].
  destruct fuel as [|fuel]; [lia|].
  simpl in Hav. apply andb_true_iff in Hav as [Hne Hav].
  apply negb_true_iff, bool_decide_eq_false in Hne.
  cbn [HasTensor]. rewrite (Hagree b Hne).
  destruct (workspaces w !! b) as [wb|]; [|done].
  destruct r; [|done]. cbn [negb].
  apply or_remote_ext. intros it Hin. apply IH; [|lia].
  rewrite forallb_forall in Hav. apply Hav. by apply list_elem_of_In.
Qed.

Lemma local_update_lookup (this : addr) (ws : Workspace) tm bm ts (w : World) :
  workspaces (local_update this ws tm bm ts w) !! this
  = Some {| name_ := name_ ws; workspace_map_ := workspace_map_ ws;
            tensor_map_ := tm; buffer_map_ := bm;
            graph_map_ := graph_map_ ws; rename_map_ := rename_map_ ws |}.
Proof. apply lookup_insert_eq. Qed.

Lemma local_update_lookup_ne (this a : addr) (ws : Workspace) tm bm ts (w : World) :
  a ≠ this → workspaces (local_update this ws tm bm ts w) !! a = workspaces w !! a.
Proof. intros. by apply lookup_insert_ne. Qed.

Lemma local_update_id (this : addr) (ws : Workspace) (w : World) :
  workspaces w !! this = Some ws →
  local_update this ws (tensor_map_ ws) (buffer_map_ ws) (tensors w) w = w.
Proof.
  intros Hws. destruct w as [wss ts lg], ws. unfold local_update. simpl in *.
  by rewrite insert_id.
Qed.

(** [HasTensor] of [this] after local updates: the local part reads the
    current tensor map, the remote part is what it was. *)
Lemma HasTensor_local_update (d fuel : nat) (w : World) (this : addr)
    (ws : Workspace) tm bm ts (name : string) :
  workspaces w !! this = Some ws →
  wf_depth (S d) w this = true → (d ≤ fuel)%nat →
  HasTensor (S fuel) (local_update this ws tm bm ts w) this name true
  = Ret (bool_decide (is_Some (tm !! GetTensorName ws name))
         || remote_has fuel w ws (GetTensorName ws name)).
Proof.
  intros Hws Hwf Hle. cbn [HasTensor]. rewrite local_update_lookup.
  cbn [negb tensor_map_ workspace_map_]. unfold GetTensorName at 1 2. cbn [rename_map_].
  fold (GetTensorName ws name).
  assert (Hrem : ∀ it, it ∈ workspace_map_ ws →
            HasTensor fuel (local_update this ws tm bm ts w) it.2
              (GetTensorName ws name) true
            = HasTensor fuel w it.2 (GetTensorName ws name) true).
  { intros it Hin. apply (HasTensor_frame d w _ this); [|by eapply wf_depth_remote_avoids|done].
    intros a Hne. by apply local_update_lookup_ne. }
  rewrite (or_remote_ext
             (λ b, HasTensor fuel (local_update this ws tm bm ts w) b
                     (GetTensorName ws name) true)
             (λ b, HasTensor fuel w b (GetTensorName ws name) true) _ _ Hrem).
  rewrite or_remote_total; [done|].
  intros it Hin.
  destruct (HasTensor_total d w it.2 (GetTensorName ws name) true) as [b Hb].
  { by eapply wf_depth_remote. }
  exists b. by rewrite (HasTensor_fuel d w fuel) by (eauto using wf_depth_remote; lia).
Qed.

(** ** CreateTensor and CreateBuffer, step by step *)

Lemma CreateTensor_step (fuel : nat) (this : addr) (name : string) (w : World)
    (ws : Workspace) tm bm ts (has : bool) :
  HasTensor fuel (local_update this ws tm bm ts w) this (GetTensorName ws name) true
  = Ret has →
  CreateTensor fuel this name (local_update this ws tm bm ts w)
  = Ret ((CreateTensor_outcome has (GetTensorName ws name) tm ts).1.1,
         local_update this ws
           (CreateTensor_outcome has (GetTensorName ws name) tm ts).1.2 bm
           (CreateTensor_outcome has (GetTensorName ws name) tm ts).2 w).
Proof.
  intros Hhas. unfold CreateTensor.
  rewrite (mbind_ret _ _ _ _ _ (self_ret _ _ _ (local_update_lookup _ _ _ _ _ _))).
  unfold GetTensorName at 1 2 3. cbn [rename_map_]. fold (GetTensorName ws name).
  set (query := GetTensorName ws name) in *.
  unfold mbind at 1. unfold mpure. rewrite Hhas. cbn [obind].
  destruct has; cbn [negb CreateTensor_outcome fst snd].
  - unfold mbind at 1. unfold mret at 1.
    rewrite (tensor_at_ret _ query _ _ (local_update_lookup _ _ _ _ _ _)).
    cbn [tensor_map_]. f_equal. f_equal. world_eq.
  - unfold assign_new_tensor, alloc_tensor.
    unfold mbind at 1. unfold mbind at 1.
    set (p := fresh (dom (tensors (local_update this ws tm bm ts w)))).
    change (fresh (dom ts)) with p.
    set (w1 := set_tensors <[p := new_Tensor query]> (local_update this ws tm bm ts w)).
    assert (Hws1 : workspaces w1 !! this
                   = Some {| name_ := name_ ws; workspace_map_ := workspace_map_ ws;
                             tensor_map_ := tm; buffer_map_ := bm;
                             graph_map_ := graph_map_ ws;
                             rename_map_ := rename_map_ ws |}).
    { unfold w1, set_tensors. cbn [workspaces]. apply lookup_insert_eq. }
    rewrite (mbind_ret _ _ _ _ _ (self_ret _ _ _ Hws1)). cbn [tensor_map_].
    destruct (tm !! query) as [[old|]|] eqn:Hq.
    + unfold mbind at 1.
      erewrite modify_self_ret by
        (unfold w1, set_tensors, local_update; cbn [workspaces]; apply lookup_insert_eq).
      erewrite tensor_at_present;
        [|apply lookup_put_workspace|cbn; apply lookup_insert_eq].
      f_equal. f_equal. subst w1. world_eq.
    + unfold mbind at 1. unfold mret at 1.
      rewrite (modify_self_ret _ _ _ _ Hws1).
      erewrite tensor_at_present;
        [|apply lookup_put_workspace|cbn; apply lookup_insert_eq].
      f_equal. f_equal. subst w1. world_eq.
    + unfold mbind at 1. unfold mret at 1.
      rewrite (modify_self_ret _ _ _ _ Hws1).
      erewrite tensor_at_present;
        [|apply lookup_put_workspace|cbn; apply lookup_insert_eq].
      f_equal. f_equal. subst w1. world_eq.
Qed.

Lemma CreateTensor_inv (fuel : nat) (this : addr) (name : string) (w w' : World)
    (ws : Workspace) tm bm ts (h : handle) :
  CreateTensor fuel this name (local_update this ws tm bm ts w) = Ret (h, w') →
  ∃ has,
    HasTensor fuel (local_update this ws tm bm ts w) this (GetTensorName ws name) true
    = Ret has ∧
    h = (CreateTensor_outcome has (GetTensorName ws name) tm ts).1.1 ∧
    w' = local_update this ws
           (CreateTensor_outcome has (GetTensorName ws name) tm ts).1.2 bm
           (CreateTensor_outcome has (GetTensorName ws name) tm ts).2 w.
Proof.
  intros Hret.
  destruct (HasTensor fuel (local_update this ws tm bm ts w) this
              (GetTensorName ws name) true) as [has| | |] eqn:Hhas.
  - rewrite (CreateTensor_step _ _ _ _ _ _ _ _ _ Hhas) in Hret.
    injection Hret as <- <-. eauto.
  - exfalso. revert Hret. unfold CreateTensor.
    rewrite (mbind_ret _ _ _ _ _ (self_ret _ _ _ (local_update_lookup _ _ _ _ _ _))).
    unfold GetTensorName at 1 2 3. cbn [rename_map_]. fold (GetTensorName ws name).
    unfold mbind at 1. unfold mpure. by rewrite Hhas.
  - exfalso. revert Hret. unfold CreateTensor.
    rewrite (mbind_ret _ _ _ _ _ (self_ret _ _ _ (local_update_lookup _ _ _ _ _ _))).
    unfold GetTensorName at 1 2 3. cbn [rename_map_]. fold (GetTensorName ws name).
    unfold mbind at 1. unfold mpure. by rewrite Hhas.
  - exfalso. revert Hret. unfold CreateTensor.
    rewrite (mbind_ret _ _ _ _ _ (self_ret _ _ _ (local_update_lookup _ _ _ _ _ _))).
    unfold GetTensorName at 1 2 3. cbn [rename_map_]. fold (GetTensorName ws name).
    unfold mbind at 1. unfold mpure. by rewrite Hhas.
Qed.

(** [CreateTensor] only adds keys, and the resolved name is one of them. *)
Lemma CreateTensor_outcome_keys (has : bool) (query : string) tm ts :
  (∀ key, is_Some (tm !! key) →
          is_Some ((CreateTensor_outcome has query tm ts).1.2 !! key)) ∧
  is_Some ((CreateTensor_outcome has query tm ts).1.2 !! query).
Proof.
  destruct has; cbn [CreateTensor_outcome fst snd]; split;
    try (rewrite lookup_insert_eq; by eauto);
    intros key Hkey; (destruct (decide (query = key)) as [->|Hne];
      [rewrite lookup_insert_eq; by eauto | by rewrite lookup_insert_ne]).
Qed.

Lemma buffer_names_S (category : string) (i : Z) (k : nat) :
  buffer_names category i (S k)
  = buffer_name category i :: buffer_names category (i + 1) k.
Proof.
  unfold buffer_names. cbn [seq fmap list_fmap]. rewrite Z.add_0_r. f_equal.
  rewrite <- fmap_S_seq, <- list_fmap_compose.
  apply list_fmap_ext. intros _ j _. cbn. f_equal. lia.
Qed.

Lemma buffer_name_inj (category : string) (i j : Z) :
  buffer_name category i = buffer_name category j → i = j.
Proof.
  unfold buffer_name, dragon_cast. intros H.
  apply (inj (String.app "_t_")) in H.
  apply (inj (String.app category)) in H.
  apply (inj (String.app "_buffer_")) in H.
  by apply (inj pretty) in H.
Qed.

Lemma elem_of_buffer_names (category name : string) (i : Z) (k : nat) :
  name ∈ buffer_names category i k ↔
  ∃ j, name = buffer_name category j ∧ i ≤ j < i + Z.of_nat k.
Proof.
  unfold buffer_names. rewrite list_elem_of_fmap. split.
  - intros (n & -> & Hn). apply elem_of_seq in Hn. eexists. split; [done|]. lia.
  - intros (j & -> & Hj). exists (Z.to_nat (j - i)). split; [f_equal; lia|].
    apply elem_of_seq. lia.
Qed.

Lemma NoDup_buffer_names (category : string) (i : Z) (k : nat) :
  NoDup (buffer_names category i k).
Proof.
  unfold buffer_names. apply NoDup_fmap_2_strong; [|apply NoDup_seq].
  intros a b _ _ Hab. apply buffer_name_inj in Hab. lia.
Qed.

(** One turn of the loop of [CreateBuffer]. *)
Lemma CreateBuffer_loop_S (fuel : nat) (this : addr) (category : string)
    (k : nat) (i : Z) (w : World) (ws : Workspace) tm bm ts (st : list string) :
  bm !! category = Some st →
  CreateBuffer_loop fuel this category (S k) i (local_update this ws tm bm ts w)
  = (CreateTensor fuel this (buffer_name category i) ;;ₘ
     CreateBuffer_loop fuel this category k (i + 1))
      (local_update this ws tm (<[category := buffer_name category i :: st]> bm) ts w).
Proof.
  intros Hst. cbn [CreateBuffer_loop].
  rewrite (mbind_ret _ _ _ _ _
             (buffer_at_ret _ category _ _ (local_update_lookup _ _ _ _ _ _))).
  cbn [buffer_map_]. rewrite Hst. cbn [default].
  erewrite (mbind_ret (modify_self _ _)); [reflexivity|].
  rewrite (modify_self_ret _ _ _ _ (lookup_put_workspace _ _ _)).
  f_equal. f_equal. world_eq.
Qed.

(** Whenever the loop of [CreateBuffer] returns, it has pushed the names in
    loop order, kept every key of the tensor map and added the resolved key
    of every pushed name. *)
Lemma CreateBuffer_loop_inv (fuel : nat) (this : addr) (category : string)
    (w : World) (ws : Workspace) :
  ∀ (k : nat) (i : Z) tm bm ts (st : list string) (w' : World),
    bm !! category = Some st →
    CreateBuffer_loop fuel this category k i (local_update this ws tm bm ts w)
    = Ret (tt, w') →
    ∃ tm' ts',
      w' = local_update this ws tm'
             (<[category := rev (buffer_names category i k) ++ st]> bm) ts' w ∧
      (∀ key, is_Some (tm !! key) → is_Some (tm' !! key)) ∧
      (∀ name, name ∈ buffer_names category i k →
               is_Some (tm' !! GetTensorName ws name)).
Proof.
  induction k as [|k IH]; intros i tm bm ts st w' Hst Hret.
  - injection Hret as <-. exists tm, ts. split; [|split].
    + cbn. by rewrite insert_id.
    + done.
    + intros name Hin. by apply not_elem_of_nil in Hin.
  - rewrite (CreateBuffer_loop_S _ _ _ _ _ _ _ _ _ _ _ Hst) in Hret.
    apply mbind_inv in Hret as (h & w1 & Hct & Hloop).
    apply CreateTensor_inv in Hct as (has & _ & _ & ->).
    set (out := CreateTensor_outcome has
                  (GetTensorName ws (buffer_name category i)) tm ts) in *.
    destruct (CreateTensor_outcome_keys has
                (GetTensorName ws (buffer_name category i)) tm ts) as [Hgrow Hkey].
    fold out in Hgrow, Hkey.
    apply (IH _ _ _ _ (buffer_name category i :: st)) in Hloop
      as (tm' & ts' & -> & Hgrow' & Hnames); [|by rewrite lookup_insert_eq].
    exists tm', ts'. split; [|split].
    + rewrite insert_insert_eq, buffer_names_S. cbn [rev].
      by rewrite <- app_assoc.
    + auto.
    + intros name Hin. rewrite buffer_names_S in Hin.
      apply elem_of_cons in Hin as [->|Hin]; auto.
Qed.

Lemma CreateBuffer_duplicate (fuel : nat) (this : addr) (category : string)
    (num : Z) (w : World) (ws : Workspace) :
  workspaces w !! this = Some ws → is_Some (buffer_map_ ws !! category) →
  CreateBuffer fuel this category num w = Fatal (DuplicateCategory category).
Proof.
  intros Hws Hcat. unfold CreateBuffer.
  rewrite (mbind_ret _ _ _ _ _ (self_ret _ _ _ Hws)).
  by rewrite bool_decide_true.
Qed.

Lemma CreateBuffer_absent (fuel : nat) (this : addr) (category : string)
    (num : Z) (w : World) (ws : Workspace) :
  workspaces w !! this = Some ws → buffer_map_ ws !! category = None →
  CreateBuffer fuel this category num w
  = CreateBuffer_loop fuel this category (Z.to_nat num) 1
      (local_update this ws (tensor_map_ ws) (<[category := []]> (buffer_map_ ws))
         (tensors w) w).
Proof.
  intros Hws Hcat. unfold CreateBuffer.
  rewrite (mbind_ret _ _ _ _ _ (self_ret _ _ _ Hws)).
  rewrite bool_decide_false by (rewrite Hcat; by intros [? ?]).
  rewrite (mbind_ret _ _ _ _ _ (modify_self_ret _ _ _ _ Hws)).
  f_equal.
Qed.

Lemma forallb_pointwise {A : Type} (f g : A → bool) (l : list A) :
  (∀ x, f x = g x) → forallb f l = forallb g l.
Proof. intros Hfg. induction l as [|x l IH]; cbn; [done|]. by rewrite Hfg, IH. Qed.

Lemma wf_depth_local_update (this : addr) (ws : Workspace) tm bm ts (w : World) :
  workspaces w !! this = Some ws →
  ∀ d a, wf_depth d (local_update this ws tm bm ts w) a = wf_depth d w a.
Proof.
  intros Hws. induction d as [|d IH]; intros a; [done|]. cbn [wf_depth].
  destruct (decide (a = this)) as [->|Hne].
  - rewrite local_update_lookup, Hws. cbn [workspace_map_].
    apply forallb_pointwise. intros it. apply IH.
  - rewrite local_update_lookup_ne by done.
    destruct (workspaces w !! a); [|done]. apply forallb_pointwise. intros it. apply IH.
Qed.

(** On a well-founded composition the loop of [CreateBuffer] returns. *)
Lemma CreateBuffer_loop_total (d fuel : nat) (this : addr) (category : string)
    (w : World) (ws : Workspace) :
  workspaces w !! this = Some ws →
  wf_depth (S d) w this = true → (d ≤ fuel)%nat →
  ∀ (k : nat) (i : Z) tm bm ts (st : list string),
    bm !! category = Some st →
    ∃ w', CreateBuffer_loop (S fuel) this category k i
            (local_update this ws tm bm ts w) = Ret (tt, w').
Proof.
  intros Hws Hwf Hle. induction k as [|k IH]; intros i tm bm ts st Hst.
  - eexists. reflexivity.
  - rewrite (CreateBuffer_loop_S _ _ _ _ _ _ _ _ _ _ _ Hst).
    erewrite mbind_ret;
      [|apply CreateTensor_step; by apply (HasTensor_local_update d)].
    eapply IH. by rewrite lookup_insert_eq.
Qed.

(** Names that are neither aliased nor known to the workspace or to its
    composed workspaces each get a new tensor of their own. *)
Lemma CreateBuffer_loop_fresh (d fuel : nat) (this : addr) (category : string)
    (w : World) (ws : Workspace) :
  workspaces w !! this = Some ws →
  wf_depth (S d) w this = true → (d ≤ fuel)%nat →
  ∀ (k : nat) (i : Z) tm bm ts (st : list string),
    bm !! category = Some st →
    (∀ name, name ∈ buffer_names category i k →
       rename_map_ ws !! name = None ∧ tm !! name = None ∧
       remote_has fuel w ws name = false) →
    ∃ tm' ts',
      CreateBuffer_loop (S fuel) this category k i (local_update this ws tm bm ts w)
      = Ret (tt, local_update this ws tm'
                   (<[category := rev (buffer_names category i k) ++ st]> bm) ts' w) ∧
      (∀ key, key ∉ buffer_names category i k → tm' !! key = tm !! key) ∧
      (∀ p t, ts !! p = Some t → ts' !! p = Some t) ∧
      (∀ name, name ∈ buffer_names category i k →
         ∃ p, tm' !! name = Some (Some p) ∧ ts' !! p = Some (new_Tensor name) ∧
              ts !! p = None).
Proof.
  intros Hws Hwf Hle. induction k as [|k IH]; intros i tm bm ts st Hst Hnames.
  - exists tm, ts. split; [|split; [|split]]; try done.
    + cbn. by rewrite insert_id.
    + intros name Hin. by apply not_elem_of_nil in Hin.
  - pose proof (NoDup_buffer_names category i (S k)) as Hnd.
    rewrite buffer_names_S in Hnames, Hnd. apply NoDup_cons in Hnd as [Hnotin _].
    set (name0 := buffer_name category i) in *.
    destruct (Hnames name0) as (Hren & Htm & Hrem); [by left|].
    assert (Hq : GetTensorName ws name0 = name0) by (unfold GetTensorName; by rewrite Hren).
    assert (Hhas : HasTensor (S fuel)
                     (local_update this ws tm (<[category := name0 :: st]> bm) ts w)
                     this (GetTensorName ws name0) true = Ret false).
    { rewrite (HasTensor_local_update d) by done.
      rewrite !Hq, Htm, Hrem.
      by rewrite bool_decide_false by (intros [? ?]; discriminate). }
    set (p := fresh (dom ts)).
    assert (Hp : ts !! p = None) by (apply not_elem_of_dom, is_fresh).
    destruct (IH (i + 1) (<[name0 := Some p]> tm) (<[category := name0 :: st]> bm)
                (<[p := new_Tensor name0]> ts) (name0 :: st))
      as (tm' & ts' & Hloop & Hother & Hsub & Hnew).
    { by rewrite lookup_insert_eq. }
    { intros name Hin. destruct (Hnames name) as (? & ? & ?); [by right|].
      split; [done|]. split; [|done].
      rewrite lookup_insert_ne; [done|]. intros <-. done. }
    exists tm', ts'. split; [|split; [|split]].
    + rewrite (CreateBuffer_loop_S _ _ _ _ _ _ _ _ _ _ _ Hst). fold name0.
      rewrite (mbind_ret _ _ _ _ _ (CreateTensor_step _ _ _ _ _ _ _ _ _ Hhas)).
      rewrite Hq. cbn [CreateTensor_outcome fst snd]. rewrite Htm. fold p.
      rewrite Hloop. rewrite insert_insert_eq, buffer_names_S. fold name0. cbn [rev].
      by rewrite <- app_assoc.
    + intros key Hkey. rewrite buffer_names_S in Hkey. fold name0 in Hkey.
      apply not_elem_of_cons in Hkey as [Hne Hkey].
      rewrite (Hother key Hkey). by rewrite lookup_insert_ne.
    + intros q t Hqt. apply Hsub. rewrite lookup_insert_ne; [done|].
      intros <-. congruence.
    + intros name Hin. rewrite buffer_names_S in Hin. fold name0 in Hin.
      apply elem_of_cons in Hin as [->|Hin].
      * exists p. rewrite (Hother name0 Hnotin), lookup_insert_eq.
        split; [done|]. split; [|done]. apply Hsub. by rewrite lookup_insert_eq.
      * destruct (Hnew name Hin) as (q & Hq1 & Hq2 & Hq3). exists q.
        split; [done|]. split; [done|].
        destruct (decide (p = q)) as [->|Hne];
          [by rewrite lookup_insert_eq in Hq3 | by rewrite lookup_insert_ne in Hq3].
Qed.

(** ** The pool invariant *)

Lemma pool_names_registered_grow tm tm' bm :
  pool_names_registered tm bm →
  (∀ key, is_Some (tm !! key) → is_Some (tm' !! key)) →
  pool_names_registered tm' bm.
Proof. intros Hinv Hgrow category st name Hst Hin. eapply Hgrow, Hinv; eauto. Qed.

Lemma pool_names_registered_insert tm bm (category : string) (st : list string) :
  pool_names_registered tm bm →
  (∀ name, name ∈ st → is_Some (tm !! name)) →
  pool_names_registered tm (<[category := st]> bm).
Proof.
  intros Hinv Hst c st' name Hc Hin.
  destruct (decide (category = c)) as [->|Hne].
  - rewrite lookup_insert_eq in Hc. injection Hc as <-. auto.
  - rewrite lookup_insert_ne in Hc by done. eapply Hinv; eauto.
Qed.


Lemma tensor_name_inv (tensor : handle) (w w' : World) (name : string) :
  tensor_name tensor w = Ret (name, w') →
  w' = w ∧ ∃ p t, tensor = Some p ∧ tensors w !! p = Some t ∧ name = t_name t.
Proof.
  unfold tensor_name. destruct tensor as [p|]; [|discriminate].
  destruct (tensors w !! p) as [t|] eqn:Ht; [|discriminate].
  intros [= <- <-]. eauto 10.
Qed.




Lemma CreateTensor_buffer_inv (fuel : nat) (w w' : World) (this : addr)
    (ws : Workspace) (name : string) (h : handle) :
  workspaces w !! this = Some ws → buffer_inv ws →
  CreateTensor fuel this name w = Ret (h, w') →
  ∃ ws', workspaces w' !! this = Some ws' ∧ buffer_inv ws' ∧
         buffer_map_ ws' = buffer_map_ ws ∧ rename_map_ ws' = rename_map_ ws ∧
         workspace_map_ ws' = workspace_map_ ws.
Proof.
  intros Hws Hinv Hret. rewrite <- (local_update_id _ _ _ Hws) in Hret.
  apply CreateTensor_inv in Hret as (has & _ & _ & ->).
  eexists. split; [apply local_update_lookup|]. split; [|done].
  unfold buffer_inv. cbn [tensor_map_ buffer_map_].
  eapply pool_names_registered_grow; [done|].
  apply CreateTensor_outcome_keys.
Qed.

Lemma CreateBuffer_buffer_inv (fuel : nat) (w w' : World) (this : addr)
    (ws : Workspace) (category : string) (num : Z) :
  workspaces w !! this = Some ws → buffer_inv ws →
  (∀ name, name ∈ buffer_names category 1 (Z.to_nat num) →
           rename_map_ ws !! name = None) →
  CreateBuffer fuel this category num w = Ret (tt, w') →
  ∃ ws', workspaces w' !! this = Some ws' ∧ buffer_inv ws' ∧
         buffer_map_ ws' !! category = Some (rev (buffer_names category 1 (Z.to_nat num))) ∧
         (∀ c, c ≠ category → buffer_map_ ws' !! c = buffer_map_ ws !! c) ∧
         rename_map_ ws' = rename_map_ ws ∧ workspace_map_ ws' = workspace_map_ ws.
Proof.
  intros Hws Hinv Hnames Hret.
  destruct (buffer_map_ ws !! category) as [st|] eqn:Hcat.
  { rewrite (CreateBuffer_duplicate _ _ _ _ _ _ Hws) in Hret by eauto. discriminate. }
  rewrite (CreateBuffer_absent _ _ _ _ _ _ Hws Hcat) in Hret.
  apply (CreateBuffer_loop_inv _ _ _ _ _ _ _ _ _ _ []) in Hret
    as (tm' & ts' & -> & Hgrow & Hkeys); [|by rewrite lookup_insert_eq].
  rewrite app_nil_r, insert_insert_eq.
  eexists. split; [apply local_update_lookup|]. cbn [buffer_map_ rename_map_ workspace_map_].
  split; [|split; [by rewrite lookup_insert_eq|split; [|done]]].
  - unfold buffer_inv. cbn [tensor_map_ buffer_map_].
    apply pool_names_registered_insert.
    + by eapply pool_names_registered_grow.
    + intros name Hin. apply list_elem_of_In, in_rev, list_elem_of_In in Hin.
      specialize (Hkeys name Hin). unfold GetTensorName in Hkeys.
      by rewrite (Hnames name Hin) in Hkeys.
  - intros c Hne. by rewrite lookup_insert_ne.
Qed.

(** ** Construction *)

Lemma CreateTensor_total (d fuel : nat) (w : World) (this : addr) (ws : Workspace)
    (name : string) :
  workspaces w !! this = Some ws →
  wf_depth (S d) w this = true → (d ≤ fuel)%nat →
  ∃ h w', CreateTensor (S fuel) this name w = Ret (h, w').
Proof.
  intros Hws Hwf Hle. rewrite <- (local_update_id _ _ _ Hws).
  erewrite CreateTensor_step; [by eauto|].
  by apply (HasTensor_local_update d).
Qed.

Lemma CreateBuffer_total (d fuel : nat) (w : World) (this : addr) (ws : Workspace)
    (category : string) (num : Z) :
  workspaces w !! this = Some ws →
  wf_depth (S d) w this = true → (d ≤ fuel)%nat →
  buffer_map_ ws !! category = None →
  ∃ w', CreateBuffer (S fuel) this category num w = Ret (tt, w').
Proof.
  intros Hws Hwf Hle Hcat. rewrite (CreateBuffer_absent _ _ _ _ _ _ Hws Hcat).
  eapply (CreateBuffer_loop_total d); [done..|]. by rewrite lookup_insert_eq.
Qed.

Lemma wf_depth_no_remote (w : World) (this : addr) (ws : Workspace) (d : nat) :
  workspaces w !! this = Some ws → workspace_map_ ws = [] →
  wf_depth (S d) w this = true.
Proof. intros Hws Hnil. cbn [wf_depth]. by rewrite Hws, Hnil. Qed.

Lemma buffer_inv_blank (wname : string) : buffer_inv (blank_Workspace wname).
Proof. intros c st name Hc. cbn in Hc. by rewrite lookup_empty in Hc. Qed.

(** The constructor returns: the new workspace sits at an address that was
    unused, has the categories "Common" and "Grad", no alias and no
    composed workspace, and its pool only holds registered names. *)
Lemma new_Workspace_ret (fuel : nat) (wname : string) (w0 : World) :
  (1 ≤ fuel)%nat →
  ∃ a w1 ws1,
    new_Workspace fuel wname w0 = Ret (a, w1) ∧
    workspaces w0 !! a = None ∧ workspaces w1 !! a = Some ws1 ∧
    buffer_inv ws1 ∧
    is_Some (buffer_map_ ws1 !! "Common") ∧ is_Some (buffer_map_ ws1 !! "Grad") ∧
    workspace_map_ ws1 = [] ∧ rename_map_ ws1 = ∅.
Proof.
  intros Hfuel. destruct fuel as [|fuel]; [lia|].
  unfold new_Workspace, init.
  set (this := fresh (dom (workspaces w0))).
  set (wa := put_workspace this (blank_Workspace wname) w0).
  assert (Hfresh : workspaces w0 !! this = None) by (apply not_elem_of_dom, is_fresh).
  pose proof (lookup_put_workspace this (blank_Workspace wname) w0) as Hwsa.
  fold wa in Hwsa.
  destruct (CreateTensor_total 0 fuel wa this _ "ignore" Hwsa) as (h & wb & Hct);
    [by eapply wf_depth_no_remote|lia|].
  destruct (CreateTensor_buffer_inv _ _ _ _ _ _ _ Hwsa
              (buffer_inv_blank wname) Hct)
    as (wsb & Hwsb & Hinvb & Hbmb & Hrnb & Hwmb).
  cbn in Hbmb, Hrnb, Hwmb.
  destruct (CreateBuffer_total 0 fuel wb this wsb "Common" WORKSPACE_COMMON_BUFFER_SIZE Hwsb)
    as (wc & Hcb1); [by eapply wf_depth_no_remote|lia|by rewrite Hbmb|].
  destruct (CreateBuffer_buffer_inv _ _ _ _ _ _ _ Hwsb Hinvb
              ltac:(intros name _; by rewrite Hrnb) Hcb1)
    as (wsc & Hwsc & Hinvc & Hcommon & Hothers & Hrnc & Hwmc).
  destruct (CreateBuffer_total 0 fuel wc this wsc "Grad" WORKSPACE_GRAD_BUFFER_SIZE Hwsc)
    as (wd & Hcb2);
    [eapply wf_depth_no_remote; [done|congruence]|lia
    |by rewrite Hothers, Hbmb by done|].
  destruct (CreateBuffer_buffer_inv _ _ _ _ _ _ _ Hwsc Hinvc
              ltac:(intros name _; by rewrite Hrnc, Hrnb) Hcb2)
    as (wsd & Hwsd & Hinvd & Hgrad & Hothers' & Hrnd & Hwmd).
  exists this, wd, wsd. split; [|split; [done|split; [done|split; [done|]]]].
  - unfold mbind. rewrite Hct, Hcb1, Hcb2. reflexivity.
  - split; [rewrite Hothers' by done; rewrite Hcommon; by eauto|].
    split; [rewrite Hgrad; by eauto|]. split; congruence.
Qed.




(** ** CreateBuffer *)

(** C6 as stated fails: with [_t_X_buffer_1] an alias of [_t_X_buffer_2],
    [CreateBuffer("X", 2)] pushes two names but allocates one tensor only;
    nothing is stored under the first name. *)
Lemma CreateBuffer_aliased_names_share_one_tensor :
  ∃ W w w',
    aliased_buffer_setup empty_world = Ret (W, w) ∧
    local_stack w W "X" = None ∧
    CreateBuffer 1 W "X" 2 w = Ret (tt, w') ∧
    local_stack w' W "X" = Some ["_t_X_buffer_2"; "_t_X_buffer_1"] ∧
    local_entry w' W "_t_X_buffer_1" = None ∧
    size (tensors w') = S (size (tensors w)).
Proof.
  eexists _, _, _.
  split; [vm_compute; reflexivity|].
  split; [vm_compute; reflexivity|].
  split; [vm_compute; reflexivity|].
  split; [vm_compute; reflexivity|].
  split; vm_compute; reflexivity.
Qed.

Lemma HasTensor_false_split (d fuel : nat) (w : World) (this : addr)
    (ws : Workspace) (name : string) :
  workspaces w !! this = Some ws →
  wf_depth (S d) w this = true → (d ≤ fuel)%nat →
  rename_map_ ws !! name = None →
  HasTensor (S fuel) w this name true = Ret false →
  tensor_map_ ws !! name = None ∧ remote_has fuel w ws name = false.
Proof.
  intros Hws Hwf Hle Hren Hhas.
  rewrite <- (local_update_id _ _ _ Hws) in Hhas.
  rewrite (HasTensor_local_update d) in Hhas by done.
  unfold GetTensorName in Hhas. rewrite Hren in Hhas.
  injection Hhas as Hhas. apply orb_false_iff in Hhas as [Hloc Hrem].
  split; [|done]. apply bool_decide_eq_false in Hloc.
  destruct (tensor_map_ ws !! name); [|done]. destruct Hloc. eauto.
Qed.

(** C6 (amended): [CreateBuffer(category, num)] aborts on a category that
    exists.  Otherwise, on a well-founded composition, it returns with the
    stack of [category] holding the [num] pairwise distinct names
    [_t_<category>_buffer_<i>], [i = 1..num], the last one on top, and with
    an entry under the resolved key of each of them; names that are neither
    aliased nor known to the workspace or its composed workspaces each name
    a tensor that did not exist before.  A workspace as constructed has the
    category "Grad", so [CreateBuffer("Grad", 1)] on it aborts. *)
Theorem CreateBuffer_duplicate_or_seed (d fuel : nat) (w : World) (this : addr)
    (ws : Workspace) (category : string) (num : Z) :
  workspaces w !! this = Some ws →
  wf_depth d w this = true → (d ≤ fuel)%nat →
  let names := buffer_names category 1 (Z.to_nat num) in
  (is_Some (buffer_map_ ws !! category) →
     CreateBuffer fuel this category num w = Fatal (DuplicateCategory category)) ∧
  (buffer_map_ ws !! category = None →
     NoDup names ∧ length names = Z.to_nat num ∧
     (∀ name, name ∈ names ↔
              ∃ i, name = "_t_" +:+ category +:+ "_buffer_" +:+ dragon_cast i ∧
                   1 ≤ i ≤ num) ∧
     (∃ w', CreateBuffer fuel this category num w = Ret (tt, w') ∧
            local_stack w' this category = Some (rev names) ∧
            ∀ name, name ∈ names →
                    is_Some (local_entry w' this (GetTensorName ws name))) ∧
     ((∀ name, name ∈ names →
               rename_map_ ws !! name = None ∧
               HasTensor fuel w this name true = Ret false) →
      ∃ w', CreateBuffer fuel this category num w = Ret (tt, w') ∧
            ∀ name, name ∈ names →
              ∃ p, local_entry w' this name = Some (Some p) ∧
                   tensors w' !! p = Some (new_Tensor name) ∧
                   tensors w !! p = None)) ∧
  (∀ fuel0 wname w0, (1 ≤ fuel0)%nat →
     ∃ a w1, new_Workspace fuel0 wname w0 = Ret (a, w1) ∧
             CreateBuffer fuel0 a "Grad" 1 w1 = Fatal (DuplicateCategory "Grad")).
Proof.
  intros Hws Hwf Hle names. split; [|split].
  - by apply CreateBuffer_duplicate.
  - intros Hcat.
    destruct d as [|d]; [discriminate|]. destruct fuel as [|fuel]; [lia|].
    assert (Hle' : (d ≤ fuel)%nat) by lia.
    split; [apply NoDup_buffer_names|].
    split; [unfold names, buffer_names; by rewrite length_fmap, length_seq|].
    split.
    { intros name. unfold names. rewrite elem_of_buffer_names. unfold buffer_name.
      split; intros (i & -> & Hi); exists i; (split; [done|lia]). }
    split.
    + destruct (CreateBuffer_total d fuel w this ws category num Hws Hwf Hle' Hcat)
        as (w' & Hcb).
      exists w'. split; [done|].
      rewrite (CreateBuffer_absent _ _ _ _ _ _ Hws Hcat) in Hcb.
      apply (CreateBuffer_loop_inv _ _ _ _ _ _ _ _ _ _ []) in Hcb
        as (tm' & ts' & -> & _ & Hkeys); [|by rewrite lookup_insert_eq].
      unfold local_stack, local_entry. rewrite local_update_lookup. simpl.
      rewrite lookup_insert_eq, app_nil_r. split; [done|].
      intros name Hin. by apply Hkeys.
    + intros Hnames.
      destruct (CreateBuffer_loop_fresh d fuel this category w ws Hws Hwf Hle'
                  (Z.to_nat num) 1 (tensor_map_ ws)
                  (<[category := []]> (buffer_map_ ws)) (tensors w) [])
        as (tm' & ts' & Hloop & _ & _ & Hnew).
      { by rewrite lookup_insert_eq. }
      { intros name Hin. destruct (Hnames name Hin) as [Hren Hhas].
        split; [done|]. by eapply HasTensor_false_split. }
      eexists. split.
      * rewrite (CreateBuffer_absent _ _ _ _ _ _ Hws Hcat). apply Hloop.
      * intros name Hin. destruct (Hnew name Hin) as (p & Hp1 & Hp2 & Hp3).
        exists p. unfold local_entry. rewrite local_update_lookup. simpl. done.
  - intros fuel0 wname w0 Hfuel0.
    destruct (new_Workspace_ret fuel0 wname w0 Hfuel0)
      as (a & w1 & ws1 & Hnew & _ & Hws1 & _ & _ & Hgrad & _).
    exists a, w1. split; [done|]. by eapply CreateBuffer_duplicate.
Qed.

(** ** The statements above at concrete worlds *)


Lemma ReleaseTensor_local_only_witness :
  workspaces fresh_world !! 0%nat = Some (workspace_at fresh_world 0) ∧
  tensor_map_ (workspace_at fresh_world 0)
    !! GetTensorName (workspace_at fresh_world 0) "w2" = None ∧
  ReleaseTensor 0 "w2" fresh_world = Fatal (NotInWorkspace "w2").
Proof.
  assert (H1 : workspaces fresh_world !! 0%nat = Some (workspace_at fresh_world 0))
    by (vm_compute; reflexivity).
  assert (H2 : tensor_map_ (workspace_at fresh_world 0)
                 !! GetTensorName (workspace_at fresh_world 0) "w2" = None)
    by (vm_compute; reflexivity).
  split; [exact H1|]. split; [exact H2|].
  exact (proj1 (ReleaseTensor_local_only fresh_world 0
                  (workspace_at fresh_world 0) "w2" H1) H2).
Defined.


Lemma ReleaseBuffer_capacity_rule_witness :
  workspaces fresh_world !! 0%nat = Some (workspace_at fresh_world 0) ∧
  tensors fresh_world !! 0%nat = Some (new_Tensor "ignore") ∧
  limit_of "Common" = 2 ∧
  ∃ W b1 b2 extra w2,
    pool_round_trip empty_world = Ret ((W, Some b1, Some b2, Some extra), w2) ∧
    limit_of "Common" = 2 ∧
    length <$> local_stack w2 W "Common" = Some 2%nat ∧
    t_resets <$> tensors w2 !! extra = Some 0%nat ∧
    ∃ w3, ReleaseBuffer W (Some extra) "Common" false w2 = Ret (tt, w3) ∧
          local_stack w3 W "Common" = local_stack w2 W "Common" ∧
          t_resets <$> tensors w3 !! extra = Some 1%nat.
Proof.
  assert (H1 : workspaces fresh_world !! 0%nat = Some (workspace_at fresh_world 0))
    by (vm_compute; reflexivity).
  assert (H2 : tensors fresh_world !! 0%nat = Some (new_Tensor "ignore"))
    by (vm_compute; reflexivity).
  split; [exact H1|]. split; [exact H2|]. split; [reflexivity|].
  exact (proj2 (proj2 (ReleaseBuffer_capacity_rule fresh_world 0
                         (workspace_at fresh_world 0) 0 (new_Tensor "ignore")
                         "Common" false H1 H2))).
Defined.

Lemma ReleaseBuffer_unlisted_category_never_pools_witness :
  workspaces fresh_world !! 0%nat = Some (workspace_at fresh_world 0) ∧
  "Scratch" ≠ "Common" ∧ "Scratch" ≠ "Grad" ∧
  limit_of "Scratch" = 0 ∧
  ReleaseBuffer 0 (Some 0%nat) "Scratch" false fresh_world
  = ReleaseBuffer 0 (Some 0%nat) "Scratch" true fresh_world.
Proof.
  assert (H1 : workspaces fresh_world !! 0%nat = Some (workspace_at fresh_world 0))
    by (vm_compute; reflexivity).
  assert (H2 : "Scratch" ≠ "Common") by discriminate.
  assert (H3 : "Scratch" ≠ "Grad") by discriminate.
  split; [exact H1|]. split; [exact H2|]. split; [exact H3|].
  pose proof (ReleaseBuffer_unlisted_category_never_pools fresh_world 0
                (workspace_at fresh_world 0) (Some 0%nat) "Scratch" H1 H2 H3)
    as (_ & Hlim & Hsame & _).
  split; [exact Hlim | exact Hsame].
Defined.

Lemma RunGraph_unknown_or_delegate_witness :
  workspaces fresh_world !! 0%nat = Some (workspace_at fresh_world 0) ∧
  graph_map_ (workspace_at fresh_world 0) !! "net" = None ∧
  ∃ w', RunGraph idle_Run 0 "net" "" "" fresh_world = Ret (false, w') ∧
        workspaces w' = workspaces fresh_world ∧ tensors w' = tensors fresh_world ∧
        errlog w' = errlog fresh_world ++ ["Graph(" +:+ "net" +:+ ") does not exist."].
Proof.
  assert (H1 : workspaces fresh_world !! 0%nat = Some (workspace_at fresh_world 0))
    by (vm_compute; reflexivity).
  assert (H2 : graph_map_ (workspace_at fresh_world 0) !! "net" = None)
    by (vm_compute; reflexivity).
  split; [exact H1|]. split; [exact H2|].
  exact (proj1 (RunGraph_unknown_or_delegate idle_Run fresh_world 0
                  (workspace_at fresh_world 0) "net" "" "" H1) H2).
Defined.


Lemma CreateBuffer_duplicate_or_seed_witness :
  workspaces fresh_world !! 0%nat = Some (workspace_at fresh_world 0) ∧
  wf_depth 1 fresh_world 0 = true ∧ (1 ≤ 1)%nat ∧
  is_Some (buffer_map_ (workspace_at fresh_world 0) !! "Grad") ∧
  CreateBuffer 1 0 "Grad" 1 fresh_world = Fatal (DuplicateCategory "Grad").
Proof.
  assert (H1 : workspaces fresh_world !! 0%nat = Some (workspace_at fresh_world 0))
    by (vm_compute; reflexivity).
  assert (H2 : wf_depth 1 fresh_world 0 = true) by (vm_compute; reflexivity).
  assert (H3 : (1 ≤ 1)%nat) by lia.
  assert (H4 : is_Some (buffer_map_ (workspace_at fresh_world 0) !! "Grad"))
    by (eexists; vm_compute; reflexivity).
  split; [exact H1|]. split; [exact H2|]. split; [exact H3|]. split; [exact H4|].
  exact (proj1 (CreateBuffer_duplicate_or_seed 1 1 fresh_world 0
                  (workspace_at fresh_world 0) "Grad" 1 H1 H2 H3) H4).
Defined.

(** * Further properties *)

(** ** MoveWorkspace *)

Lemma MoveWorkspace_known (w : World) (this b : addr) (me other : Workspace)
    (i : nat) (it : string * addr) :
  workspaces w !! this = Some me → workspaces w !! b = Some other →
  list_find (λ it, it.1 = name_ other) (workspace_map_ me) = Some (i, it) →
  MoveWorkspace this (Some b) w = Ret (it.2, w).
Proof.
  intros Hme Hother Hfind. unfold MoveWorkspace.
  rewrite (mbind_ret _ _ _ _ _ (self_ret _ _ _ Hother)).
  rewrite (mbind_ret _ _ _ _ _ (self_ret _ _ _ Hme)).
  by rewrite Hfind.
Qed.

Lemma MoveWorkspace_new (w : World) (this b : addr) (me other : Workspace) :
  workspaces w !! this = Some me → workspaces w !! b = Some other →
  list_find (λ it, it.1 = name_ other) (workspace_map_ me) = None →
  MoveWorkspace this (Some b) w
  = Ret (b, put_workspace this
              (set_workspace_map (λ l, l ++ [(name_ other, b)]) me) w).
Proof.
  intros Hme Hother Hfind. unfold MoveWorkspace.
  rewrite (mbind_ret _ _ _ _ _ (self_ret _ _ _ Hother)).
  rewrite (mbind_ret _ _ _ _ _ (self_ret _ _ _ Hme)).
  rewrite Hfind.
  by rewrite (mbind_ret _ _ _ _ _ (modify_self_ret _ _ _ _ Hme)).
Qed.

(** X1: [MoveWorkspace] aborts on the null pointer.  Otherwise it returns,
    and changes at most the composition list of [this]: a name that is
    already composed keeps its workspace, which is returned, and nothing
    changes; a new name is appended with the given workspace.  The names of
    the list stay pairwise distinct, and attaching afterwards any workspace
    of the same name returns the workspace of the first attach and changes
    nothing. *)
Theorem MoveWorkspace_first_attach_wins (w : World) (this b : addr)
    (me other : Workspace) :
  workspaces w !! this = Some me → workspaces w !! b = Some other →
  MoveWorkspace this None w = Fatal InvalidWorkspace ∧
  ∃ r w' me',
    MoveWorkspace this (Some b) w = Ret (r, w') ∧
    workspaces w' = <[this := me']> (workspaces w) ∧
    tensors w' = tensors w ∧
    tensor_map_ me' = tensor_map_ me ∧ buffer_map_ me' = buffer_map_ me ∧
    rename_map_ me' = rename_map_ me ∧ name_ me' = name_ me ∧
    (name_ other, r) ∈ workspace_map_ me' ∧
    (name_ other ∈ (workspace_map_ me).*1 → w' = w) ∧
    (name_ other ∉ (workspace_map_ me).*1 →
       r = b ∧ workspace_map_ me' = workspace_map_ me ++ [(name_ other, b)]) ∧
    (NoDup (workspace_map_ me).*1 → NoDup (workspace_map_ me').*1) ∧
    (∀ c otherc, workspaces w' !! c = Some otherc → name_ otherc = name_ other →
       MoveWorkspace this (Some c) w' = Ret (r, w')).
Proof.
  intros Hme Hother. split; [done|].
  destruct (list_find (λ it, it.1 = name_ other) (workspace_map_ me))
    as [[i it]|] eqn:Hfind.
  - pose proof Hfind as Hfind'.
    apply list_find_Some in Hfind' as (Hi & Hname & _).
    apply list_elem_of_lookup_2 in Hi.
    exists it.2, w, me. split; [by eapply MoveWorkspace_known|].
    split; [by rewrite insert_id|]. do 5 (split; [done|]).
    split; [by rewrite <- Hname, <- surjective_pairing|].
    split; [done|]. split.
    { intros Hnotin. destruct Hnotin. apply list_elem_of_fmap. by exists it. }
    split; [done|].
    intros c otherc Hc Hsame. eapply (MoveWorkspace_known _ _ _ _ _ i); [done..|].
    by rewrite Hsame.
  - pose proof Hfind as Hnone. apply list_find_None in Hnone.
    assert (Hnotin : name_ other ∉ (workspace_map_ me).*1).
    { intros Hin. apply list_elem_of_fmap in Hin as (it & Hname & Hin).
      rewrite Forall_forall in Hnone. by apply (Hnone it Hin). }
    eexists b, _, _. split; [by apply MoveWorkspace_new|].
    split; [done|]. do 5 (split; [done|]).
    cbn [workspace_map_ set_workspace_map].
    split; [apply elem_of_app; right; by left|].
    split; [done|]. split; [done|]. split.
    { intros Hnd. rewrite fmap_app. apply NoDup_app. split; [done|]. split.
      - intros x Hx Hx'. cbn in Hx'. apply list_elem_of_singleton in Hx'. by subst.
      - cbn. apply NoDup_singleton. }
    intros c otherc Hc Hsame.
    eapply (MoveWorkspace_known _ _ _ _ _ (length (workspace_map_ me)) (name_ other, b));
      [apply lookup_put_workspace|done|].
    cbn [workspace_map_ set_workspace_map]. rewrite Hsame.
    rewrite list_find_app_r by done. cbn.
    by rewrite decide_True.
Qed.

(** ** CreateRename *)

(** X2: after [CreateRename(old, new)] the name [old] stands for the key
    [new], whatever [new] itself is an alias of, and every other name
    resolves as before; no tensor and no registry entry is touched.
    [HasTensor(old, false)], [GetTensor(old, false)] and
    [ReleaseTensor(old)] then act on the entry stored under [new]. *)
Theorem CreateRename_redirects_to_key (w : World) (this : addr) (ws : Workspace)
    (old_tensor new_tensor : string) :
  workspaces w !! this = Some ws →
  ∃ w' ws',
    CreateRename this old_tensor new_tensor w = Ret (tt, w') ∧
    workspaces w' = <[this := ws']> (workspaces w) ∧ tensors w' = tensors w ∧
    tensor_map_ ws' = tensor_map_ ws ∧ buffer_map_ ws' = buffer_map_ ws ∧
    workspace_map_ ws' = workspace_map_ ws ∧
    GetTensorName ws' old_tensor = new_tensor ∧
    (∀ name, name ≠ old_tensor → GetTensorName ws' name = GetTensorName ws name) ∧
    HasTensor 1 w' this old_tensor false
    = Ret (bool_decide (is_Some (tensor_map_ ws !! new_tensor))) ∧
    (∀ fuel, GetTensor (S fuel) w' this old_tensor false
             = match tensor_map_ ws !! new_tensor with
               | Some h => Ret h
               | None => Fatal (TensorNotFound old_tensor)
               end) ∧
    (tensor_map_ ws !! new_tensor = None →
       ReleaseTensor this old_tensor w' = Fatal (NotInWorkspace old_tensor)) ∧
    (∀ p t, tensor_map_ ws !! new_tensor = Some (Some p) → tensors w !! p = Some t →
       ReleaseTensor this old_tensor w' = Ret (tt, set_tensors <[p := Reset t]> w')).
Proof.
  intros Hws. eexists _, _.
  split; [unfold CreateRename; by apply modify_self_ret|].
  set (ws' := set_rename_map <[old_tensor := new_tensor]> ws).
  set (w' := put_workspace this ws' w).
  pose proof (lookup_put_workspace this ws' w) as Hws'. fold w' in Hws'.
  assert (Hold : GetTensorName ws' old_tensor = new_tensor).
  { unfold GetTensorName. cbn. by rewrite lookup_insert_eq. }
  do 5 (split; [done|]). split; [done|]. split.
  { intros name Hne. unfold GetTensorName. cbn. by rewrite lookup_insert_ne. }
  split; [by rewrite (HasTensor_local _ _ _ _ _ Hws'), Hold|].
  split.
  { intros fuel. cbn [GetTensor]. rewrite Hws', Hold. done. }
  split.
  - intros Hnone. apply (ReleaseTensor_absent _ _ _ _ Hws'). by rewrite Hold.
  - intros p t Hp Ht.
    rewrite (ReleaseTensor_present _ _ _ _ (Some p) Hws') by (by rewrite Hold).
    unfold reset_tensor. cbn [tensors w' put_workspace]. by rewrite Ht.
Qed.

(** ** CreateTensor, HasTensor and GetTensor together *)

Lemma GetTensorName_same_aliases (ws ws' : Workspace) (name : string) :
  rename_map_ ws' = rename_map_ ws → GetTensorName ws' name = GetTensorName ws name.
Proof. unfold GetTensorName. by intros ->. Qed.

Lemma CreateTensor_outcome_entry (has : bool) (query : string) tm ts :
  (CreateTensor_outcome has query tm ts).1.2 !! query
  = Some (CreateTensor_outcome has query tm ts).1.1.
Proof. destruct has; cbn; by rewrite lookup_insert_eq. Qed.

(** X3: whenever [CreateTensor(name)] returns, with handle [h], the resolved
    name has a local entry: [HasTensor(name, false)] answers [true] and
    [GetTensor(name)], with or without remote search, returns [h] (also
    when [h] is null).  No other workspace has changed. *)
Theorem CreateTensor_then_GetTensor (fuel fuel' : nat) (w w' : World) (this : addr)
    (ws : Workspace) (name : string) (h : handle) :
  workspaces w !! this = Some ws →
  CreateTensor fuel this name w = Ret (h, w') →
  HasTensor (S fuel') w' this name false = Ret true ∧
  (∀ r, GetTensor (S fuel') w' this name r = Ret h) ∧
  local_entry w' this (GetTensorName ws name) = Some h ∧
  (∀ a, a ≠ this → workspaces w' !! a = workspaces w !! a).
Proof.
  intros Hws Hct. rewrite <- (local_update_id _ _ _ Hws) in Hct.
  apply CreateTensor_inv in Hct as (has & _ & -> & ->).
  pose proof (CreateTensor_outcome_entry has (GetTensorName ws name)
                (tensor_map_ ws) (tensors w)) as Hentry.
  set (out := CreateTensor_outcome has (GetTensorName ws name)
                (tensor_map_ ws) (tensors w)) in *.
  set (ws1 := {| name_ := name_ ws; workspace_map_ := workspace_map_ ws;
                  tensor_map_ := out.1.2; buffer_map_ := buffer_map_ ws;
                  graph_map_ := graph_map_ ws; rename_map_ := rename_map_ ws |}).
  assert (Hws' : workspaces (local_update this ws out.1.2 (buffer_map_ ws) out.2 w)
                   !! this = Some ws1) by apply local_update_lookup.
  split; [|split; [|split]].
  - rewrite (HasTensor_local _ _ _ _ _ Hws').
    rewrite (GetTensorName_same_aliases ws ws1 name eq_refl). cbn [tensor_map_ ws1].
    rewrite Hentry. by rewrite bool_decide_true by eauto.
  - intros r. cbn [GetTensor]. rewrite Hws'.
    rewrite (GetTensorName_same_aliases ws ws1 name eq_refl). cbn [tensor_map_ ws1].
    by rewrite Hentry.
  - unfold local_entry. rewrite Hws'. simpl. done.
  - intros a Hne. by apply local_update_lookup_ne.
Qed.

(** X4: on a well-founded composition, [CreateTensor(name)] with a resolved
    name that resolves to itself and already has a local entry returns that
    entry and leaves the world as it is, whatever the composed workspaces
    own. *)
Theorem CreateTensor_registered_is_noop (d fuel : nat) (w : World) (this : addr)
    (ws : Workspace) (name : string) (h : handle) :
  workspaces w !! this = Some ws →
  wf_depth d w this = true → (d ≤ fuel)%nat →
  GetTensorName ws (GetTensorName ws name) = GetTensorName ws name →
  tensor_map_ ws !! GetTensorName ws name = Some h →
  CreateTensor fuel this name w = Ret (h, w).
Proof.
  intros Hws Hwf Hle Hstable Hentry.
  destruct d as [|d]; [discriminate|]. destruct fuel as [|fuel]; [lia|].
  rewrite <- (local_update_id _ _ _ Hws) at 1.
  erewrite (CreateTensor_step _ _ _ _ _ _ _ _ true).
  - cbn [CreateTensor_outcome fst snd]. rewrite Hentry. cbn [default].
    rewrite insert_id by done. by rewrite (local_update_id _ _ _ Hws).
  - rewrite (HasTensor_local_update d) by (done || lia).
    rewrite Hstable, Hentry. by rewrite bool_decide_true by eauto.
Qed.

(** X5: on a well-founded composition, [CreateTensor(name)] with a name that
    is not aliased and that neither the workspace nor its composed
    workspaces know allocates one tensor, named [name], at an address that
    was unused, stores it under [name] and returns its non-null handle; the
    tensors that existed are untouched, and a second [CreateTensor(name)]
    returns the same handle and changes nothing. *)
Theorem CreateTensor_unknown_allocates (d fuel : nat) (w : World) (this : addr)
    (ws : Workspace) (name : string) :
  workspaces w !! this = Some ws →
  wf_depth d w this = true → (d ≤ fuel)%nat →
  rename_map_ ws !! name = None →
  HasTensor fuel w this name true = Ret false →
  ∃ p w',
    CreateTensor fuel this name w = Ret (Some p, w') ∧
    tensors w !! p = None ∧
    tensors w' = <[p := new_Tensor name]> (tensors w) ∧
    local_entry w' this name = Some (Some p) ∧
    (∀ key, key ≠ name → local_entry w' this key = local_entry w this key) ∧
    CreateTensor fuel this name w' = Ret (Some p, w').
Proof.
  intros Hws Hwf Hle Hren Hhas.
  destruct d as [|d]; [discriminate|]. destruct fuel as [|fuel]; [lia|].
  assert (Hle' : (d ≤ fuel)%nat) by lia.
  destruct (HasTensor_false_split d fuel w this ws name Hws Hwf Hle' Hren Hhas)
    as [Hloc Hrem].
  assert (Hq : GetTensorName ws name = name) by (unfold GetTensorName; by rewrite Hren).
  set (p := fresh (dom (tensors w))).
  assert (Hp : tensors w !! p = None) by (apply not_elem_of_dom, is_fresh).
  set (w' := local_update this ws (<[name := Some p]> (tensor_map_ ws))
               (buffer_map_ ws) (<[p := new_Tensor name]> (tensors w)) w).
  assert (Hct : CreateTensor (S fuel) this name w = Ret (Some p, w')).
  { rewrite <- (local_update_id _ _ _ Hws) at 1.
    erewrite (CreateTensor_step _ _ _ _ _ _ _ _ false).
    - rewrite Hq. cbn [CreateTensor_outcome fst snd]. by rewrite Hloc.
    - rewrite (HasTensor_local_update d) by done.
      rewrite !Hq, Hloc, Hrem. by rewrite bool_decide_false by (intros [? ?]; discriminate). }
  exists p, w'. split; [done|]. split; [done|]. split; [done|].
  split; [|split].
  - unfold local_entry, w'. rewrite local_update_lookup. simpl. by rewrite lookup_insert_eq.
  - intros key Hne. unfold local_entry, w'. rewrite local_update_lookup, Hws. simpl.
    by rewrite lookup_insert_ne.
  - unfold w'. erewrite (CreateTensor_step _ _ _ _ _ _ _ _ true).
    + rewrite Hq. cbn [CreateTensor_outcome fst snd]. rewrite lookup_insert_eq.
      cbn [default]. by rewrite insert_insert_eq.
    + rewrite (HasTensor_local_update d) by done.
      rewrite !Hq, lookup_insert_eq. by rewrite bool_decide_true by eauto.
Qed.

(** X6: on a well-founded composition [GetTensor(name)] returns a handle
    exactly when [HasTensor(name)] answers [true] and ends in [LOG(FATAL)]
    exactly when it answers [false]; without remote search the same holds
    on any composition.  A name found without remote search is found with
    it, with the same handle. *)
Theorem GetTensor_agrees_with_HasTensor (d fuel : nat) (w : World) (this : addr)
    (ws : Workspace) (name : string) :
  workspaces w !! this = Some ws →
  wf_depth d w this = true → (d ≤ fuel)%nat →
  ((HasTensor fuel w this name true = Ret true ∧
    ∃ h, GetTensor fuel w this name true = Ret h) ∨
   (HasTensor fuel w this name true = Ret false ∧
    GetTensor fuel w this name true = Fatal (TensorNotFound name))) ∧
  ((HasTensor fuel w this name false = Ret true ∧
    ∃ h, GetTensor fuel w this name false = Ret h) ∨
   (HasTensor fuel w this name false = Ret false ∧
    GetTensor fuel w this name false = Fatal (TensorNotFound name))) ∧
  (∀ h, GetTensor fuel w this name false = Ret h →
        GetTensor fuel w this name true = Ret h ∧
        HasTensor fuel w this name true = Ret true).
Proof.
  intros Hws Hwf Hle.
  assert (Hremote :
    (HasTensor fuel w this name true = Ret true ∧
     ∃ h, GetTensor fuel w this name true = Ret h) ∨
    (HasTensor fuel w this name true = Ret false ∧
     GetTensor fuel w this name true = Fatal (TensorNotFound name))).
  { rewrite (HasTensor_fuel d w fuel), (GetTensor_fuel d w fuel) by done.
    by apply HasTensor_GetTensor. }
  split; [done|].
  destruct d as [|d]; [discriminate|]. destruct fuel as [|fuel]; [lia|].
  rewrite (HasTensor_local _ _ _ _ _ Hws). cbn [GetTensor]. rewrite Hws.
  destruct (tensor_map_ ws !! GetTensorName ws name) as [h|] eqn:Hq.
  - rewrite bool_decide_true by eauto. split; [left; eauto|].
    intros h' [= <-]. split; [done|].
    destruct Hremote as [[Hhas _]|[Hhas _]]; [done|].
    exfalso. revert Hhas. cbn [HasTensor]. rewrite Hws, Hq. cbn [negb].
    rewrite bool_decide_true by eauto.
    assert (Htot : ∀ it, it ∈ workspace_map_ ws →
              ∃ b, HasTensor fuel w it.2 (GetTensorName ws name) true = Ret b).
    { intros it Hin.
      destruct (HasTensor_total d w it.2 (GetTensorName ws name) true) as [b Hb];
        [by eapply wf_depth_remote|].
      exists b. rewrite (HasTensor_fuel d w fuel); [done|by eapply wf_depth_remote|lia]. }
    rewrite (or_remote_total (λ b, HasTensor fuel w b (GetTensorName ws name) true)
               _ _ Htot).
    discriminate.
  - rewrite bool_decide_false by (intros [? ?]; discriminate).
    split; [right; done|]. intros h' Hh'. discriminate.
Qed.

(** ** Cyclic compositions *)

Lemma or_remote_Ret_inv (f : addr → outcome bool) (l : list (string * addr))
    (r b : bool) :
  or_remote f l r = Ret b → ∀ it, it ∈ l → ∃ b', f it.2 = Ret b'.
Proof.
  revert r. induction l as [|it0 l IH]; intros r Hret it Hin.
  - by apply not_elem_of_nil in Hin.
  - cbn in Hret. apply obind_Ret in Hret as (b0 & Hb0 & Hrest).
    apply elem_of_cons in Hin as [->|Hin]; [eauto|]. by eapply IH.
Qed.

Lemma append_remote_Ret_inv (get : addr → outcome (list string))
    (l : list (string * addr)) (names res : list string) :
  append_remote get l names = Ret res → ∀ it, it ∈ l → ∃ sub, get it.2 = Ret sub.
Proof.
  revert names. induction l as [|it0 l IH]; intros names Hret it Hin.
  - by apply not_elem_of_nil in Hin.
  - cbn in Hret. apply obind_Ret in Hret as (sub & Hsub & Hrest).
    apply elem_of_cons in Hin as [->|Hin]; [eauto|]. by eapply IH.
Qed.

Lemma HasTensor_on_cycle (w : World) (C : addr → Prop) :
  (∀ a, C a → ∃ ws it, workspaces w !! a = Some ws ∧ it ∈ workspace_map_ ws ∧ C it.2) →
  ∀ fuel a name b, C a → HasTensor fuel w a name true ≠ Ret b.
Proof.
  intros Hcycle. induction fuel as [|fuel IH]; intros a name b Ha; [done|].
  destruct (Hcycle a Ha) as (ws & it & Hws & Hin & Hit).
  cbn [HasTensor]. rewrite Hws. cbn [negb]. intros Hret.
  destruct (or_remote_Ret_inv _ _ _ _ Hret it Hin) as [b' Hb'].
  by apply (IH it.2 (GetTensorName ws name) b').
Qed.

(** X7: in a set of workspaces each of which is composed with a member of
    the set (a cycle, or a workspace composed with itself), the calls that
    visit every composed workspace never return: [HasTensor] with remote
    search, [CreateTensor], whose existence test it is, and [GetTensors]. *)
Theorem cyclic_composition_never_returns (w : World) (C : addr → Prop) :
  (∀ a, C a → ∃ ws it, workspaces w !! a = Some ws ∧ it ∈ workspace_map_ ws ∧ C it.2) →
  ∀ fuel a name, C a →
    (∀ b, HasTensor fuel w a name true ≠ Ret b) ∧
    (∀ h w', CreateTensor fuel a name w ≠ Ret (h, w')) ∧
    (∀ names, GetTensors fuel w a ≠ Ret names).
Proof.
  intros Hcycle fuel a name Ha. split; [|split].
  - intros b. by apply (HasTensor_on_cycle w C).
  - intros h w' Hct. destruct (Hcycle a Ha) as (ws & _ & Hws & _).
    rewrite <- (local_update_id _ _ _ Hws) in Hct.
    apply CreateTensor_inv in Hct as (has & Hhas & _).
    rewrite (local_update_id _ _ _ Hws) in Hhas.
    by apply (HasTensor_on_cycle w C Hcycle) in Hhas.
  - clear name. revert a Ha. induction fuel as [|fuel IH]; intros a Ha names; [done|].
    destruct (Hcycle a Ha) as (ws & it & Hws & Hin & Hit).
    cbn [GetTensors]. rewrite Hws. intros Hret.
    destruct (append_remote_Ret_inv _ _ _ _ Hret it Hin) as [sub Hsub].
    by apply (IH it.2 Hit sub).
Qed.

(** ** GetTensors *)



(** ** Filler table *)

Lemma string_nonempty_length (s : string) : (0 < String.length s)%nat ↔ s ≠ "".
Proof. destruct s; cbn; split; (done || lia || intros; lia). Qed.

Lemma CreateFiller_ret (filler : TensorFiller) (m : gmap string TensorFiller) :
  filler_tensor filler ≠ "" →
  CreateFiller filler m
  = FillerRet (match m !! filler_tensor filler with
               | Some _ => m
               | None => <[filler_tensor filler := filler]> m
               end).
Proof.
  intros Hne. unfold CreateFiller.
  rewrite bool_decide_true by (by apply string_nonempty_length).
  destruct (m !! filler_tensor filler) eqn:Hm.
  - by rewrite bool_decide_true by eauto.
  - by rewrite bool_decide_false by (intros [? ?]; discriminate).
Qed.

Lemma CreateFiller_without_name (filler : TensorFiller) (m : gmap string TensorFiller) :
  filler_tensor filler = "" → CreateFiller filler m = FillerWithoutName.
Proof.
  intros Hempty. unfold CreateFiller.
  rewrite bool_decide_false; [done|]. rewrite string_nonempty_length. tauto.
Qed.

(** X9: a run of [CreateFiller] calls returns exactly when every filler
    names a tensor, the first one that does not failing the [CHECK].  After
    it, [GetFiller(name)] yields the filler the table had for [name]
    before the run, else the first filler of the run for [name], else
    [nullptr]: a later filler for the same tensor never replaces an
    earlier one. *)
Theorem CreateFiller_first_definition_wins (fillers : list TensorFiller)
    (m : gmap string TensorFiller) :
  ((∃ m', CreateFillers fillers m = FillerRet m') ↔
   Forall (λ filler, filler_tensor filler ≠ "") fillers) ∧
  (∀ m', CreateFillers fillers m = FillerRet m' →
     ∀ name, GetFiller name m'
             = match GetFiller name m with
               | Some filler => Some filler
               | None => snd <$> list_find (λ filler, filler_tensor filler = name) fillers
               end).
Proof.
  revert m. induction fillers as [|filler rest IH]; intros m.
  - split.
    + split; [by constructor|]. intros _. by exists m.
    + intros m' [= <-] name. cbn. by destruct (GetFiller name m).
  - destruct (decide (filler_tensor filler = "")) as [Hempty|Hne].
    + cbn [CreateFillers]. rewrite (CreateFiller_without_name _ _ Hempty). split.
      * split; [by intros [m' ?]|]. intros Hall. by apply Forall_cons_1 in Hall as [? _].
      * intros m' Hret. discriminate.
    + cbn [CreateFillers]. rewrite (CreateFiller_ret _ _ Hne).
      set (m1 := match m !! filler_tensor filler with
                 | Some _ => m
                 | None => <[filler_tensor filler := filler]> m
                 end).
      destruct (IH m1) as [IHret IHget]. split.
      * rewrite IHret. split; [by constructor|]. by intros [_ ?]%Forall_cons_1.
      * intros m' Hret name. rewrite (IHget m' Hret name).
        unfold GetFiller, m1. cbn [list_find].
        destruct (decide (filler_tensor filler = name)) as [<-|Hother].
        -- destruct (m !! filler_tensor filler) eqn:Hm; [by rewrite Hm|].
           by rewrite lookup_insert_eq.
        -- assert (Hm1 : (match m !! filler_tensor filler with
                          | Some _ => m
                          | None => <[filler_tensor filler := filler]> m
                          end) !! name = m !! name).
           { destruct (m !! filler_tensor filler); [done|]. by rewrite lookup_insert_ne. }
           rewrite Hm1. destruct (m !! name); [done|].
           by destruct (list_find _ rest) as [[? ?]|].
Qed.

(** ** Pool round trips *)

(** X10: taking a buffer and giving it back restores the world.  When the
    top name of the stack is the key of a live tensor of that name and the
    rest of the stack is below the limit of the category, [GetBuffer]
    returns the handle of that tensor and [ReleaseBuffer] of that handle,
    without [enforce], leaves exactly the world before [GetBuffer]. *)
Theorem GetBuffer_then_ReleaseBuffer_restores (w : World) (this : addr)
    (ws : Workspace) (category name : string) (rest : list string)
    (p : ptr) (t : Tensor) :
  workspaces w !! this = Some ws →
  buffer_map_ ws !! category = Some (name :: rest) →
  tensor_map_ ws !! name = Some (Some p) →
  tensors w !! p = Some t → t_name t = name →
  Z.of_nat (length rest) < limit_of category →
  ∃ w1, GetBuffer this category w = Ret (Some p, w1) ∧
        local_stack w1 this category = Some rest ∧
        ReleaseBuffer this (Some p) category false w1 = Ret (tt, w).
Proof.
  intros Hws Hst Hp Ht Hname Hlt.
  eexists. split; [rewrite (GetBuffer_nonempty _ _ _ _ _ _ Hws Hst), Hp; reflexivity|].
  cbn [default].
  rewrite (set_tensor_map_id name (Some p)) by done.
  split.
  { unfold local_stack. rewrite lookup_put_workspace. simpl. by rewrite lookup_insert_eq. }
  rewrite (ReleaseBuffer_recover _ _ _ p t category (lookup_put_workspace _ _ _));
    cbn [buffer_map_ set_buffer_map tensors put_workspace];
    rewrite ?lookup_insert_eq; cbn [default]; [|done..].
  rewrite put_put_workspace, Hname. f_equal. f_equal.
  rewrite <- (put_workspace_id _ _ _ Hws) at 2. f_equal.
  destruct ws. unfold set_buffer_map. cbn in *.
  by rewrite insert_insert_eq, insert_id.
Qed.

(** X11: giving a buffer back and taking one returns the same buffer.  When
    the stack of an existing category is below its limit and the released
    handle is the live local tensor stored under its own name,
    [ReleaseBuffer] without [enforce] followed by [GetBuffer] returns that
    handle and leaves exactly the world before [ReleaseBuffer]. *)
Theorem ReleaseBuffer_then_GetBuffer_returns_it (w : World) (this : addr)
    (ws : Workspace) (category : string) (st : list string) (p : ptr) (t : Tensor) :
  workspaces w !! this = Some ws →
  buffer_map_ ws !! category = Some st →
  tensors w !! p = Some t →
  tensor_map_ ws !! t_name t = Some (Some p) →
  Z.of_nat (length st) < limit_of category →
  ∃ w1, ReleaseBuffer this (Some p) category false w = Ret (tt, w1) ∧
        local_stack w1 this category = Some (t_name t :: st) ∧
        tensors w1 = tensors w ∧
        GetBuffer this category w1 = Ret (Some p, w).
Proof.
  intros Hws Hst Ht Hp Hlt.
  eexists. split.
  { rewrite (ReleaseBuffer_recover _ _ _ p t category Hws Ht); rewrite Hst; done. }
  cbn [default]. split.
  { unfold local_stack. rewrite lookup_put_workspace. simpl. by rewrite lookup_insert_eq. }
  split; [done|].
  rewrite (GetBuffer_nonempty _ _ _ category (t_name t) st (lookup_put_workspace _ _ _))
    by (cbn; by rewrite lookup_insert_eq).
  cbn [tensor_map_ set_buffer_map]. rewrite Hp. cbn [default].
  rewrite put_put_workspace. f_equal. f_equal.
  rewrite <- (put_workspace_id _ _ _ Hws) at 2. f_equal.
  destruct ws. unfold set_buffer_map, set_tensor_map. cbn in *.
  by rewrite insert_insert_eq, !insert_id.
Qed.

(** ** Categories without buffers *)

(** X12: [CreateBuffer(category, num)] with [num <= 0] on a new category
    never enters its loop: it returns, whatever the composition, with the
    category registered with an empty stack and with no tensor and no
    registry entry touched, so [GetBuffer(category)] aborts and another
    [CreateBuffer(category, ...)] fails the duplicate check. *)
Theorem CreateBuffer_without_buffers (fuel : nat) (w : World) (this : addr)
    (ws : Workspace) (category : string) (num : Z) :
  workspaces w !! this = Some ws → buffer_map_ ws !! category = None → num ≤ 0 →
  ∃ w', CreateBuffer fuel this category num w = Ret (tt, w') ∧
        local_stack w' this category = Some [] ∧
        tensors w' = tensors w ∧
        (∀ key, local_entry w' this key = local_entry w this key) ∧
        GetBuffer this category w' = Fatal (BuffersNotEnough category) ∧
        ∀ fuel' num', CreateBuffer fuel' this category num' w'
                      = Fatal (DuplicateCategory category).
Proof.
  intros Hws Hcat Hnum. eexists. split.
  { rewrite (CreateBuffer_absent _ _ _ _ _ _ Hws Hcat).
    replace (Z.to_nat num) with 0%nat by lia. reflexivity. }
  pose proof (local_update_lookup this ws (tensor_map_ ws)
                (<[category := []]> (buffer_map_ ws)) (tensors w) w) as Hws'.
  split; [unfold local_stack; rewrite Hws'; simpl; by rewrite lookup_insert_eq|].
  split; [done|]. split.
  { intros key. unfold local_entry. by rewrite Hws', Hws. }
  split.
  - apply (GetBuffer_empty _ _ _ _ Hws'). cbn. by rewrite lookup_insert_eq.
  - intros fuel' num'. apply (CreateBuffer_duplicate _ _ _ _ _ _ Hws').
    cbn. rewrite lookup_insert_eq. by eauto.
Qed.

Lemma ReleaseBuffer_touches_category (w w' : World) (this : addr) (ws : Workspace)
    (tensor : handle) (category : string) (enforce : bool) :
  workspaces w !! this = Some ws →
  ReleaseBuffer this tensor category enforce w = Ret (tt, w') →
  ∃ ws' st, workspaces w' !! this = Some ws' ∧ buffer_map_ ws' !! category = Some st.
Proof.
  intros Hws Hret.
  set (st := default [] (buffer_map_ ws !! category)).
  destruct (decide (limit_of category ≤ Z.of_nat (length st) ∨ enforce = true))
    as [Hcond|Hcond].
  - rewrite (ReleaseBuffer_release _ _ _ _ _ _ Hws Hcond) in Hret.
    apply mbind_inv in Hret as (name & w1 & Hname & Hrel).
    apply tensor_name_inv in Hname as [-> _].
    destruct (ReleaseTensor_inv _ _ _ _ _ (lookup_put_workspace _ _ _) Hrel)
      as (p & t & _ & _ & ->).
    eexists _, st. split; [apply lookup_put_workspace|].
    cbn. by rewrite lookup_insert_eq.
  - assert (Z.of_nat (length st) < limit_of category) as Hlt by lia.
    assert (enforce = false) as -> by (destruct enforce; [tauto|done]).
    destruct tensor as [p|]; [destruct (tensors w !! p) as [t|] eqn:Ht|].
    + rewrite (ReleaseBuffer_recover _ _ _ _ _ _ Hws Ht Hlt) in Hret.
      injection Hret as <-. eexists _, _. split; [apply lookup_put_workspace|].
      cbn. by rewrite lookup_insert_eq.
    + exfalso. revert Hret. unfold ReleaseBuffer.
      rewrite (mbind_ret _ _ _ _ _ (buffer_at_ret _ category _ _ Hws)).
      destruct (_ || _); unfold mbind, tensor_name; cbn [tensors put_workspace];
        by rewrite Ht.
    + exfalso. revert Hret. unfold ReleaseBuffer.
      rewrite (mbind_ret _ _ _ _ _ (buffer_at_ret _ category _ _ Hws)).
      by destruct (_ || _).
Qed.

(** X13: [ReleaseBuffer] registers the category it is given.  Whenever it
    returns, on either path and also for a category that did not exist,
    the category has a stack afterwards, so a later
    [CreateBuffer(category, ...)] fails the duplicate check. *)
Theorem ReleaseBuffer_registers_category (w w' : World) (this : addr)
    (ws : Workspace) (tensor : handle) (category : string) (enforce : bool) :
  workspaces w !! this = Some ws →
  ReleaseBuffer this tensor category enforce w = Ret (tt, w') →
  is_Some (local_stack w' this category) ∧
  ∀ fuel num, CreateBuffer fuel this category num w'
              = Fatal (DuplicateCategory category).
Proof.
  intros Hws Hret.
  destruct (ReleaseBuffer_touches_category _ _ _ _ _ _ _ Hws Hret)
    as (ws' & st & Hws' & Hst).
  split.
  - unfold local_stack. rewrite Hws'. simpl. by eauto.
  - intros fuel num. apply (CreateBuffer_duplicate _ _ _ _ _ _ Hws'). by eauto.
Qed.

(** ** What a call can write *)

Lemma invoke_needs_this (fuel : nat) (this : addr) (m : method) (w w' : World) :
  invoke fuel this m w = Ret (tt, w') → ∃ ws, workspaces w !! this = Some ws.
Proof.
  destruct (workspaces w !! this) as [ws|] eqn:Hws; [by eauto|].
  intros Hret. exfalso. revert Hret.
  destruct m as [name|name|o n|[b|]|category num|category|tensor category enforce];
    cbn [invoke].
  - unfold CreateTensor, mbind, self. by rewrite Hws.
  - unfold ReleaseTensor, mbind, mpure. cbn [HasTensor]. by rewrite Hws.
  - unfold CreateRename, modify_self, mbind, self. by rewrite Hws.
  - unfold MoveWorkspace, mbind, self. destruct (workspaces w !! b); [|done].
    by rewrite Hws.
  - done.
  - unfold CreateBuffer, mbind, self. by rewrite Hws.
  - unfold GetBuffer, buffer_at, mbind, self. by rewrite Hws.
  - unfold ReleaseBuffer, buffer_at, mbind, self. by rewrite Hws.
Qed.

Lemma MoveWorkspace_inv (w w' : World) (this : addr) (me : Workspace)
    (ws : option addr) (r : addr) :
  workspaces w !! this = Some me →
  MoveWorkspace this ws w = Ret (r, w') →
  w' = w ∨ ∃ l, w' = put_workspace this (set_workspace_map (λ _, l) me) w.
Proof.
  intros Hme Hret. destruct ws as [b|]; [|discriminate].
  destruct (workspaces w !! b) as [other|] eqn:Hother.
  - destruct (list_find (λ it, it.1 = name_ other) (workspace_map_ me))
      as [[i it]|] eqn:Hfind.
    + rewrite (MoveWorkspace_known _ _ _ _ _ _ _ Hme Hother Hfind) in Hret.
      injection Hret as _ <-. by left.
    + rewrite (MoveWorkspace_new _ _ _ _ _ Hme Hother Hfind) in Hret.
      injection Hret as _ <-. right. by eexists.
  - exfalso. revert Hret. unfold MoveWorkspace, mbind, self. by rewrite Hother.
Qed.

Lemma ReleaseBuffer_inv (w w' : World) (this : addr) (ws : Workspace)
    (tensor : handle) (category : string) (enforce : bool) :
  workspaces w !! this = Some ws →
  ReleaseBuffer this tensor category enforce w = Ret (tt, w') →
  ∃ bm, (w' = put_workspace this (set_buffer_map (λ _, bm) ws) w) ∨
        (∃ name p t,
           tensor_map_ ws !! GetTensorName ws name = Some (Some p) ∧
           tensors w !! p = Some t ∧
           w' = set_tensors <[p := Reset t]>
                  (put_workspace this (set_buffer_map (λ _, bm) ws) w)).
Proof.
  intros Hws Hret.
  set (st := default [] (buffer_map_ ws !! category)).
  destruct (decide (limit_of category ≤ Z.of_nat (length st) ∨ enforce = true))
    as [Hcond|Hcond].
  - rewrite (ReleaseBuffer_release _ _ _ _ _ _ Hws Hcond) in Hret.
    apply mbind_inv in Hret as (name & w1 & Hname & Hrel).
    apply tensor_name_inv in Hname as [-> _].
    destruct (ReleaseTensor_inv _ _ _ _ _ (lookup_put_workspace _ _ _) Hrel)
      as (p & t & Hp & Ht & ->).
    eexists. right. exists name, p, t. done.
  - assert (Z.of_nat (length st) < limit_of category) as Hlt by lia.
    assert (enforce = false) as -> by (destruct enforce; [tauto|done]).
    destruct tensor as [p|]; [destruct (tensors w !! p) as [t|] eqn:Ht|].
    + rewrite (ReleaseBuffer_recover _ _ _ _ _ _ Hws Ht Hlt) in Hret.
      injection Hret as <-. eexists. by left.
    + exfalso. revert Hret. unfold ReleaseBuffer.
      rewrite (mbind_ret _ _ _ _ _ (buffer_at_ret _ category _ _ Hws)).
      destruct (_ || _); unfold mbind, tensor_name; cbn [tensors put_workspace];
        by rewrite Ht.
    + exfalso. revert Hret. unfold ReleaseBuffer.
      rewrite (mbind_ret _ _ _ _ _ (buffer_at_ret _ category _ _ Hws)).
      by destruct (_ || _).
Qed.

Lemma GetBuffer_inv (w w' : World) (this : addr) (ws : Workspace)
    (category : string) (h : handle) :
  workspaces w !! this = Some ws →
  GetBuffer this category w = Ret (h, w') →
  ∃ name rest,
    buffer_map_ ws !! category = Some (name :: rest) ∧
    h = default None (tensor_map_ ws !! name) ∧
    w' = put_workspace this
           (set_tensor_map <[name := h]> (set_buffer_map <[category := rest]> ws)) w.
Proof.
  intros Hws Hget.
  destruct (buffer_map_ ws !! category) as [[|name rest]|] eqn:Hst.
  - rewrite (GetBuffer_empty _ _ _ _ Hws) in Hget by (by rewrite Hst). discriminate.
  - rewrite (GetBuffer_nonempty _ _ _ _ _ _ Hws Hst) in Hget.
    injection Hget as <- <-. eauto.
  - rewrite (GetBuffer_empty _ _ _ _ Hws) in Hget by (by rewrite Hst). discriminate.
Qed.

(** X14: a member function that returns has written to its own workspace
    only: every other workspace, the name and the graphs of its own, and the
    error log are as before.  The aliases change under [CreateRename] only,
    the composition under [MoveWorkspace] only. *)
Theorem invoke_writes_this_only (fuel : nat) (this : addr) (m : method)
    (w w' : World) :
  invoke fuel this m w = Ret (tt, w') →
  ∃ ws ws',
    workspaces w !! this = Some ws ∧
    workspaces w' = <[this := ws']> (workspaces w) ∧
    (∀ a, a ≠ this → workspaces w' !! a = workspaces w !! a) ∧
    errlog w' = errlog w ∧
    name_ ws' = name_ ws ∧ graph_map_ ws' = graph_map_ ws ∧
    (changes_aliases m = false → rename_map_ ws' = rename_map_ ws) ∧
    (changes_composition m = false → workspace_map_ ws' = workspace_map_ ws).
Proof.
  intros Hret. destruct (invoke_needs_this _ _ _ _ _ Hret) as [ws Hws].
  exists ws.
  assert (Hshape : ∃ ws', workspaces w' = <[this := ws']> (workspaces w) ∧
            errlog w' = errlog w ∧
            name_ ws' = name_ ws ∧ graph_map_ ws' = graph_map_ ws ∧
            (changes_aliases m = false → rename_map_ ws' = rename_map_ ws) ∧
            (changes_composition m = false → workspace_map_ ws' = workspace_map_ ws)).
  { destruct m as [name|name|o n|b|category num|category|tensor category enforce];
      cbn [invoke] in Hret.
    - apply mbind_inv in Hret as (h & w1 & Hct & [= <-]).
      rewrite <- (local_update_id _ _ _ Hws) in Hct.
      apply CreateTensor_inv in Hct as (has & _ & _ & ->). by eexists.
    - destruct (ReleaseTensor_inv _ _ _ _ _ Hws Hret) as (p & t & _ & _ & ->).
      exists ws. cbn. by rewrite insert_id.
    - unfold CreateRename in Hret. rewrite (modify_self_ret _ _ _ _ Hws) in Hret.
      injection Hret as <-. by eexists.
    - apply mbind_inv in Hret as (r & w1 & Hmv & [= <-]).
      destruct (MoveWorkspace_inv _ _ _ _ _ _ Hws Hmv) as [->|[l ->]].
      + exists ws. by rewrite insert_id.
      + by eexists.
    - destruct (buffer_map_ ws !! category) as [st|] eqn:Hcat.
      { rewrite (CreateBuffer_duplicate _ _ _ _ _ _ Hws) in Hret by eauto. discriminate. }
      rewrite (CreateBuffer_absent _ _ _ _ _ _ Hws Hcat) in Hret.
      apply (CreateBuffer_loop_inv _ _ _ _ _ _ _ _ _ _ []) in Hret
        as (tm' & ts' & -> & _); [|by rewrite lookup_insert_eq].
      by eexists.
    - apply mbind_inv in Hret as (h & w1 & Hget & [= <-]).
      destruct (GetBuffer_inv _ _ _ _ _ _ Hws Hget) as (name & rest & _ & _ & ->).
      by eexists.
    - destruct (ReleaseBuffer_inv _ _ _ _ _ _ _ Hws Hret)
        as (bm & [->|(name & p & t & _ & _ & ->)]); by eexists. }
  destruct Hshape as (ws' & Hw' & Hlog & Hrest). exists ws'.
  split; [done|]. split; [done|]. split; [|done].
  intros a Hne. rewrite Hw'. by apply lookup_insert_ne.
Qed.

(** ** Ownership of tensors *)

Lemma registry_ok_entry (w : World) :
  registry_ok w ↔
  (∀ a key p, entry w a key p → ∃ t, tensors w !! p = Some t ∧ t_name t = key) ∧
  (∀ a a' key key' p, entry w a key p → entry w a' key' p → a = a' ∧ key = key').
Proof.
  unfold registry_ok, entry. split; intros [Hlive Huniq]; split.
  - intros a key p (ws & Hws & Hp). eauto.
  - intros a a' key key' p (ws & Hws & Hp) (ws' & Hws' & Hp'). eauto.
  - intros a ws key p Hws Hp. eauto.
  - intros a a' ws ws' key key' p Hws Hws' Hp Hp'. eapply Huniq; eauto.
Qed.

(** A world with no more entries, and with every tensor still there under
    its name, keeps the ownership discipline. *)
Lemma registry_ok_sub (w w' : World) :
  (∀ a key p, entry w' a key p → entry w a key p) →
  (∀ p t, tensors w !! p = Some t → ∃ t', tensors w' !! p = Some t' ∧ t_name t' = t_name t) →
  registry_ok w → registry_ok w'.
Proof.
  rewrite !registry_ok_entry. intros Hsub Hts [Hlive Huniq]. split.
  - intros a key p He. destruct (Hlive a key p (Hsub _ _ _ He)) as (t & Ht & Hname).
    destruct (Hts p t Ht) as (t' & Ht' & Hname'). exists t'. split; congruence.
  - intros a a' key key' p He He'. eapply Huniq; eauto.
Qed.

Lemma entry_put_workspace (w : World) (this : addr) (ws' : Workspace) a key p :
  entry (put_workspace this ws' w) a key p ↔
  (a = this ∧ tensor_map_ ws' !! key = Some (Some p)) ∨ (a ≠ this ∧ entry w a key p).
Proof.
  unfold entry. destruct (decide (a = this)) as [->|Hne].
  - rewrite lookup_put_workspace. split.
    + intros (ws & [= <-] & Hp). by left.
    + intros [[_ Hp]|[Hne _]]; [by eauto|done].
  - cbn [workspaces put_workspace]. rewrite lookup_insert_ne by done. split.
    + intros He. by right.
    + intros [[-> _]|[_ He]]; done.
Qed.

Lemma entry_local_update (w : World) (this : addr) (ws : Workspace) tm bm ts a key p :
  entry (local_update this ws tm bm ts w) a key p ↔
  (a = this ∧ tm !! key = Some (Some p)) ∨ (a ≠ this ∧ entry w a key p).
Proof.
  unfold entry. destruct (decide (a = this)) as [->|Hne].
  - rewrite local_update_lookup. split.
    + intros (ws' & [= <-] & Hp). by left.
    + intros [[_ Hp]|[Hne _]]; [by eauto|done].
  - rewrite local_update_lookup_ne by done. split.
    + intros He. by right.
    + intros [[-> _]|[_ He]]; done.
Qed.

Lemma entry_set_tensors (w : World) f a key p :
  entry (set_tensors f w) a key p ↔ entry w a key p.
Proof. done. Qed.

Lemma registry_ok_put_workspace (w : World) (this : addr) (ws ws' : Workspace) :
  workspaces w !! this = Some ws →
  (∀ key p, tensor_map_ ws' !! key = Some (Some p) →
            tensor_map_ ws !! key = Some (Some p)) →
  registry_ok w → registry_ok (put_workspace this ws' w).
Proof.
  intros Hws Hsub. apply registry_ok_sub.
  - intros a key p He. apply entry_put_workspace in He as [[-> Hp]|[_ He]]; [|done].
    exists ws. eauto.
  - intros p t Ht. eauto.
Qed.

Lemma registry_ok_reset (w : World) (p : ptr) (t : Tensor) :
  tensors w !! p = Some t → registry_ok w →
  registry_ok (set_tensors <[p := Reset t]> w).
Proof.
  intros Ht. apply registry_ok_sub; [done|].
  intros q tq Hq. cbn [tensors set_tensors].
  destruct (decide (p = q)) as [->|Hne].
  - rewrite lookup_insert_eq. exists (Reset t). split; [done|]. cbn. congruence.
  - rewrite lookup_insert_ne by done. eauto.
Qed.

(** [CreateTensor] keeps the discipline: a new tensor sits at an unused
    address, and the tensor it replaces was owned by the replaced entry
    alone. *)
Lemma registry_ok_CreateTensor_outcome (w : World) (this : addr) (ws : Workspace)
    tm bm ts (has : bool) (query : string) :
  registry_ok (local_update this ws tm bm ts w) →
  registry_ok (local_update this ws (CreateTensor_outcome has query tm ts).1.2 bm
                 (CreateTensor_outcome has query tm ts).2 w).
Proof.
  destruct has; cbn [CreateTensor_outcome fst snd].
  - apply registry_ok_sub; [|by eauto].
    intros a key p He. apply entry_local_update.
    apply entry_local_update in He as [[-> Hp]|He]; [left|by right].
    split; [done|]. destruct (decide (query = key)) as [->|Hne].
    + rewrite lookup_insert_eq in Hp. by destruct (tm !! key) as [h|]; simplify_eq/=.
    + by rewrite lookup_insert_ne in Hp.
  - rewrite !registry_ok_entry. intros [Hlive Huniq].
    set (p := fresh (dom ts)).
    assert (Hp : ts !! p = None) by (apply not_elem_of_dom, is_fresh).
    set (ts' := match tm !! query with
                | Some (Some old) => delete old (<[p := new_Tensor query]> ts)
                | _ => <[p := new_Tensor query]> ts
                end).
    assert (Hold : ∀ a key q, entry (local_update this ws tm bm ts w) a key q →
                   (a, key) ≠ (this, query) →
                   q ≠ p ∧ ts' !! q = ts !! q).
    { intros a key q He Hne.
      destruct (Hlive a key q He) as (t & Ht & _). cbn in Ht.
      assert (q ≠ p) by congruence. split; [done|]. unfold ts'.
      destruct (tm !! query) as [[old|]|] eqn:Hq;
        [|by rewrite lookup_insert_ne..].
      assert (q ≠ old).
      { intros ->. destruct Hne.
        assert (He' : entry (local_update this ws tm bm ts w) this query old)
          by (apply entry_local_update; by left).
        destruct (Huniq a this key query old He He') as [-> ->]. done. }
      rewrite lookup_delete_ne by done. by rewrite lookup_insert_ne. }
    assert (Hnew : ts' !! p = Some (new_Tensor query)).
    { unfold ts'. destruct (tm !! query) as [[old|]|] eqn:Hq;
        [|by rewrite lookup_insert_eq..].
      assert (He' : entry (local_update this ws tm bm ts w) this query old)
        by (apply entry_local_update; by left).
      destruct (Hlive this query old He') as (t & Ht & _). cbn in Ht.
      rewrite lookup_delete_ne by congruence. by rewrite lookup_insert_eq. }
    assert (Hcase : ∀ a key q,
              entry (local_update this ws (<[query := Some p]> tm) bm ts' w) a key q →
              (a = this ∧ key = query ∧ q = p) ∨
              ((a, key) ≠ (this, query) ∧
               entry (local_update this ws tm bm ts w) a key q)).
    { intros a key q He. apply entry_local_update in He as [[-> Hq]|[Hne He]].
      - destruct (decide (query = key)) as [->|Hk].
        + rewrite lookup_insert_eq in Hq. left. by simplify_eq.
        + rewrite lookup_insert_ne in Hq by done. right. split; [congruence|].
          apply entry_local_update. by left.
      - right. split; [congruence|]. apply entry_local_update. by right. }
    split.
    + intros a key q He. cbn [tensors local_update]. fold p ts'.
      destruct (Hcase a key q He) as [(-> & -> & ->)|[Hne He0]].
      * exists (new_Tensor query). done.
      * destruct (Hold a key q He0 Hne) as [_ Hsame]. rewrite Hsame.
        by apply (Hlive a key q).
    + intros a a' key key' q He He'. fold p ts' in He, He'.
      destruct (Hcase a key q He) as [(-> & -> & ->)|[Hne He0]];
        destruct (Hcase a' key' _ He') as [(-> & -> & Heq)|[Hne' He0']]; try done.
      * destruct (Hold a' key' p He0' Hne') as [? _]. done.
      * destruct (Hold a key q He0 Hne) as [? _]. by subst.
      * by apply (Huniq a a' key key' q).
Qed.

Lemma registry_ok_buffers (w : World) (this : addr) (ws : Workspace) tm bm bm' ts :
  registry_ok (local_update this ws tm bm ts w) →
  registry_ok (local_update this ws tm bm' ts w).
Proof.
  apply registry_ok_sub; [|by eauto].
  intros a key p He. apply entry_local_update. by apply entry_local_update in He.
Qed.

Lemma registry_ok_CreateBuffer_loop (fuel : nat) (this : addr) (category : string)
    (w : World) (ws : Workspace) :
  ∀ (k : nat) (i : Z) tm bm ts (st : list string) (w' : World),
    bm !! category = Some st →
    registry_ok (local_update this ws tm bm ts w) →
    CreateBuffer_loop fuel this category k i (local_update this ws tm bm ts w)
    = Ret (tt, w') →
    registry_ok w'.
Proof.
  induction k as [|k IH]; intros i tm bm ts st w' Hst Hok Hret.
  - by injection Hret as <-.
  - rewrite (CreateBuffer_loop_S _ _ _ _ _ _ _ _ _ _ _ Hst) in Hret.
    apply mbind_inv in Hret as (h & w1 & Hct & Hloop).
    apply CreateTensor_inv in Hct as (has & _ & _ & ->).
    eapply IH; [|
      |exact Hloop].
    + by rewrite lookup_insert_eq.
    + apply registry_ok_CreateTensor_outcome. by eapply registry_ok_buffers.
Qed.

Lemma registry_ok_CreateTensor (fuel : nat) (w w' : World) (this : addr)
    (ws : Workspace) (name : string) (h : handle) :
  workspaces w !! this = Some ws → registry_ok w →
  CreateTensor fuel this name w = Ret (h, w') → registry_ok w'.
Proof.
  intros Hws Hok Hct. rewrite <- (local_update_id _ _ _ Hws) in Hct, Hok.
  apply CreateTensor_inv in Hct as (has & _ & _ & ->).
  by apply registry_ok_CreateTensor_outcome.
Qed.

Lemma registry_ok_CreateBuffer (fuel : nat) (w w' : World) (this : addr)
    (ws : Workspace) (category : string) (num : Z) :
  workspaces w !! this = Some ws → registry_ok w →
  CreateBuffer fuel this category num w = Ret (tt, w') → registry_ok w'.
Proof.
  intros Hws Hok Hret.
  destruct (buffer_map_ ws !! category) as [st|] eqn:Hcat.
  { rewrite (CreateBuffer_duplicate _ _ _ _ _ _ Hws) in Hret by eauto. discriminate. }
  rewrite (CreateBuffer_absent _ _ _ _ _ _ Hws Hcat) in Hret.
  eapply registry_ok_CreateBuffer_loop; [| |exact Hret].
  - by rewrite lookup_insert_eq.
  - apply (registry_ok_buffers _ _ _ _ (buffer_map_ ws)).
    by rewrite (local_update_id _ _ _ Hws).
Qed.

Lemma registry_ok_invoke (fuel : nat) (this : addr) (m : method) (w w' : World) :
  registry_ok w → invoke fuel this m w = Ret (tt, w') → registry_ok w'.
Proof.
  intros Hok Hret. destruct (invoke_needs_this _ _ _ _ _ Hret) as [ws Hws].
  destruct m as [name|name|o n|b|category num|category|tensor category enforce];
    cbn [invoke] in Hret.
  - apply mbind_inv in Hret as (h & w1 & Hct & [= <-]).
    by eapply registry_ok_CreateTensor.
  - destruct (ReleaseTensor_inv _ _ _ _ _ Hws Hret) as (p & t & _ & Ht & ->).
    by apply registry_ok_reset.
  - unfold CreateRename in Hret. rewrite (modify_self_ret _ _ _ _ Hws) in Hret.
    injection Hret as <-. by eapply registry_ok_put_workspace.
  - apply mbind_inv in Hret as (r & w1 & Hmv & [= <-]).
    destruct (MoveWorkspace_inv _ _ _ _ _ _ Hws Hmv) as [->|[l ->]]; [done|].
    by eapply registry_ok_put_workspace.
  - by eapply registry_ok_CreateBuffer.
  - apply mbind_inv in Hret as (h & w1 & Hget & [= <-]).
    destruct (GetBuffer_inv _ _ _ _ _ _ Hws Hget) as (name & rest & _ & Hh & ->).
    eapply registry_ok_put_workspace; [done| |done].
    intros key p. cbn [tensor_map_ set_tensor_map set_buffer_map].
    destruct (decide (name = key)) as [->|Hne].
    + rewrite lookup_insert_eq. intros [= ->].
      by destruct (tensor_map_ ws !! key) as [h'|]; simplify_eq/=.
    + by rewrite lookup_insert_ne.
  - destruct (ReleaseBuffer_inv _ _ _ _ _ _ _ Hws Hret)
      as (bm & [->|(name & p & t & _ & Ht & ->)]).
    + by eapply registry_ok_put_workspace.
    + apply registry_ok_reset; [done|]. by eapply registry_ok_put_workspace.
Qed.

Lemma registry_ok_new_Workspace (fuel : nat) (wname : string) (w w' : World) (a : addr) :
  registry_ok w → new_Workspace fuel wname w = Ret (a, w') → registry_ok w'.
Proof.
  intros Hok. unfold new_Workspace, init.
  set (this := fresh (dom (workspaces w))).
  set (wa := put_workspace this (blank_Workspace wname) w).
  assert (Hfresh : workspaces w !! this = None) by (apply not_elem_of_dom, is_fresh).
  assert (Hoka : registry_ok wa).
  { revert Hok. apply registry_ok_sub; [|by eauto].
    intros b key p He. apply entry_put_workspace in He as [[-> Hp]|[_ He]]; [|done].
    cbn in Hp. by rewrite lookup_empty in Hp. }
  pose proof (lookup_put_workspace this (blank_Workspace wname) w) as Hwsa.
  fold wa in Hwsa.
  intros Hret. apply mbind_inv in Hret as ([] & w3 & Hinit & [= _ <-]).
  apply mbind_inv in Hinit as (h & wb & Hct & Hrest).
  apply mbind_inv in Hrest as ([] & wc & Hcb1 & Hcb2).
  pose proof (registry_ok_CreateTensor _ _ _ _ _ _ _ Hwsa Hoka Hct) as Hokb.
  destruct (CreateTensor_buffer_inv _ _ _ _ _ _ _ Hwsa (buffer_inv_blank wname) Hct)
    as (wsb & Hwsb & _).
  pose proof (registry_ok_CreateBuffer _ _ _ _ _ _ _ Hwsb Hokb Hcb1) as Hokc.
  assert (∃ wsc, workspaces wc !! this = Some wsc) as [wsc Hwsc].
  { destruct (workspaces wc !! this) as [wsc|] eqn:Hwsc; [by eauto|].
    exfalso. revert Hcb2. unfold CreateBuffer, mbind, self. by rewrite Hwsc. }
  by eapply registry_ok_CreateBuffer.
Qed.

(** X15: tensors have one owner.  In every world reached from the empty
    world by constructing workspaces and calling member functions, every
    non-null entry of every tensor map points to a live tensor whose name
    is the key of the entry, and no tensor is pointed to from two entries;
    each single call keeps this.  So a non-null handle that [GetTensor]
    returns from the local map is live and is named by the resolved name. *)
Theorem registry_ok_reachable :
  (∀ fuel c w w', registry_ok w → step fuel c w = Ret (tt, w') → registry_ok w') ∧
  (∀ cs w, run cs empty_world = Ret (tt, w) → registry_ok w) ∧
  (∀ w fuel this ws name p,
     registry_ok w → workspaces w !! this = Some ws →
     GetTensor (S fuel) w this name false = Ret (Some p) →
     ∃ t, tensors w !! p = Some t ∧ t_name t = GetTensorName ws name).
Proof.
  assert (Hstep : ∀ fuel c w w', registry_ok w → step fuel c w = Ret (tt, w') →
                                  registry_ok w').
  { intros fuel [wname|this m] w w' Hok Hret; cbn [step] in Hret.
    - apply mbind_inv in Hret as (a & w1 & Hnew & [= <-]).
      by eapply registry_ok_new_Workspace.
    - by eapply registry_ok_invoke. }
  split; [done|]. split.
  - assert (Hrun : ∀ cs w0 w, registry_ok w0 → run cs w0 = Ret (tt, w) → registry_ok w).
    { induction cs as [|[fuel c] cs IH]; intros w0 w Hok Hret.
      - by injection Hret as <-.
      - cbn [run] in Hret. apply mbind_inv in Hret as ([] & w1 & Hc & Hrest).
        eapply IH; [|done]. by eapply Hstep. }
    intros cs w. apply Hrun. split.
    + intros a ws key p Hws. cbn in Hws. by rewrite lookup_empty in Hws.
    + intros a a' ws ws' key key' p Hws. cbn in Hws. by rewrite lookup_empty in Hws.
  - intros w fuel this ws name p [Hlive _] Hws Hget.
    cbn [GetTensor] in Hget. rewrite Hws in Hget.
    destruct (tensor_map_ ws !! GetTensorName ws name) as [h|] eqn:Hq; [|done].
    injection Hget as ->. by eapply Hlive.
Qed.

(** ** What the constructor leaves *)

Lemma CreateTensor_plain_step (fuel : nat) (this : addr) (w : World) (ws : Workspace)
    tm bm ts (name : string) :
  workspaces w !! this = Some ws →
  workspace_map_ ws = [] → rename_map_ ws = ∅ → tm !! name = None →
  CreateTensor (S fuel) this name (local_update this ws tm bm ts w)
  = Ret (Some (fresh (dom ts)),
         local_update this ws (<[name := Some (fresh (dom ts))]> tm) bm
           (<[fresh (dom ts) := new_Tensor name]> ts) w).
Proof.
  intros Hws Hwm Hrn Hname.
  assert (Hq : GetTensorName ws name = name).
  { unfold GetTensorName. by rewrite Hrn, lookup_empty. }
  erewrite (CreateTensor_step _ _ _ _ _ _ _ _ false).
  - rewrite Hq. cbn [CreateTensor_outcome fst snd]. by rewrite Hname.
  - rewrite (HasTensor_local_update 0) by (eauto using wf_depth_no_remote || lia).
    rewrite !Hq, Hname. unfold remote_has. rewrite Hwm. cbn [existsb].
    by rewrite bool_decide_false by (intros [? ?]; discriminate).
Qed.

Lemma local_update_rebase (this : addr) (ws : Workspace) tm bm ts tm' bm' ts'
    (w : World) :
  local_update this
    {| name_ := name_ ws; workspace_map_ := workspace_map_ ws; tensor_map_ := tm;
       buffer_map_ := bm; graph_map_ := graph_map_ ws; rename_map_ := rename_map_ ws |}
    tm' bm' ts' (local_update this ws tm bm ts w)
  = local_update this ws tm' bm' ts' w.
Proof. world_eq. Qed.

Lemma CreateBuffer_local_update (fuel : nat) (this : addr) (category : string)
    (num : Z) (w : World) (ws : Workspace) tm bm ts :
  bm !! category = None →
  CreateBuffer fuel this category num (local_update this ws tm bm ts w)
  = CreateBuffer_loop fuel this category (Z.to_nat num) 1
      (local_update this ws tm (<[category := []]> bm) ts w).
Proof.
  intros Hcat.
  rewrite (CreateBuffer_absent _ _ _ _ _ _ (local_update_lookup _ _ _ _ _ _))
    by done.
  cbn [tensor_map_ buffer_map_ tensors local_update].
  by rewrite local_update_rebase.
Qed.

Lemma buffer_name_Common_1 : buffer_name "Common" 1 = "_t_Common_buffer_1".
Proof. vm_compute. reflexivity. Qed.

Lemma buffer_name_Common_2 : buffer_name "Common" (1 + 1) = "_t_Common_buffer_2".
Proof. vm_compute. reflexivity. Qed.

Lemma buffer_name_Grad_1 : buffer_name "Grad" 1 = "_t_Grad_buffer_1".
Proof. vm_compute. reflexivity. Qed.

(** X16: the constructor, in any world and for any name, returns with the
    new workspace at an address that was unused and with every workspace
    and every tensor that existed as it was.  The new workspace has the
    given name, no alias, no composed workspace and no graph; its registry
    holds exactly the sentinel [ignore] and the three buffers, four new
    tensors at four distinct addresses; its pool holds "Common" with both
    of its buffers, the second on top, and "Grad" with its one buffer. *)
Theorem new_Workspace_seeds (fuel : nat) (wname : string) (w0 : World) :
  (1 ≤ fuel)%nat →
  ∃ a w1 ws1 p0 p1 p2 p3,
    new_Workspace fuel wname w0 = Ret (a, w1) ∧
    workspaces w0 !! a = None ∧
    workspaces w1 = <[a := ws1]> (workspaces w0) ∧ errlog w1 = errlog w0 ∧
    name_ ws1 = wname ∧ workspace_map_ ws1 = [] ∧
    rename_map_ ws1 = ∅ ∧ graph_map_ ws1 = ∅ ∧
    buffer_map_ ws1
    = <["Grad" := ["_t_Grad_buffer_1"]]>
        (<["Common" := ["_t_Common_buffer_2"; "_t_Common_buffer_1"]]> ∅) ∧
    tensor_map_ ws1
    = <["_t_Grad_buffer_1" := Some p3]>
        (<["_t_Common_buffer_2" := Some p2]>
           (<["_t_Common_buffer_1" := Some p1]> (<["ignore" := Some p0]> ∅))) ∧
    tensors w1
    = <[p3 := new_Tensor "_t_Grad_buffer_1"]>
        (<[p2 := new_Tensor "_t_Common_buffer_2"]>
           (<[p1 := new_Tensor "_t_Common_buffer_1"]>
              (<[p0 := new_Tensor "ignore"]> (tensors w0)))) ∧
    NoDup [p0; p1; p2; p3] ∧
    (∀ p, p ∈ [p0; p1; p2; p3] → tensors w0 !! p = None).
Proof.
  intros Hfuel. destruct fuel as [|fuel]; [lia|].
  unfold new_Workspace, init.
  set (this := fresh (dom (workspaces w0))).
  set (wa := put_workspace this (blank_Workspace wname) w0).
  assert (Hfresh : workspaces w0 !! this = None) by (apply not_elem_of_dom, is_fresh).
  pose proof (lookup_put_workspace this (blank_Workspace wname) w0) as Hwsa.
  fold wa in Hwsa.
  set (ts0 := tensors w0).
  set (p0 := fresh (dom ts0)).
  set (ts1 := <[p0 := new_Tensor "ignore"]> ts0).
  set (p1 := fresh (dom ts1)).
  set (ts2 := <[p1 := new_Tensor "_t_Common_buffer_1"]> ts1).
  set (p2 := fresh (dom ts2)).
  set (ts3 := <[p2 := new_Tensor "_t_Common_buffer_2"]> ts2).
  set (p3 := fresh (dom ts3)).
  set (ts4 := <[p3 := new_Tensor "_t_Grad_buffer_1"]> ts3).
  assert (H0 : ts0 !! p0 = None) by (apply not_elem_of_dom, is_fresh).
  assert (H1 : ts1 !! p1 = None) by (apply not_elem_of_dom, is_fresh).
  assert (H2 : ts2 !! p2 = None) by (apply not_elem_of_dom, is_fresh).
  assert (H3 : ts3 !! p3 = None) by (apply not_elem_of_dom, is_fresh).
  set (tm1 := <["ignore" := Some p0]> (∅ : gmap string (option nat))).
  set (tm2 := <["_t_Common_buffer_1" := Some p1]> tm1).
  set (tm3 := <["_t_Common_buffer_2" := Some p2]> tm2).
  set (tm4 := <["_t_Grad_buffer_1" := Some p3]> tm3).
  set (bm1 := <["Common" := ["_t_Common_buffer_2"; "_t_Common_buffer_1"]]>
                (∅ : gmap string (list string))).
  set (bm2 := <["Grad" := ["_t_Grad_buffer_1"]]> bm1).
  set (blank := blank_Workspace wname).
  assert (Hct : CreateTensor (S fuel) this "ignore" wa
                = Ret (Some p0, local_update this blank tm1 ∅ ts1 wa)).
  { rewrite <- (local_update_id _ _ _ Hwsa) at 1.
    apply (CreateTensor_plain_step fuel this wa blank ∅ ∅ ts0 "ignore");
      [done..|apply lookup_empty]. }
  assert (Hcb1 : CreateBuffer (S fuel) this "Common" WORKSPACE_COMMON_BUFFER_SIZE
                   (local_update this blank tm1 ∅ ts1 wa)
                 = Ret (tt, local_update this blank tm3 bm1 ts3 wa)).
  { rewrite (CreateBuffer_local_update _ _ _ _ _ _ _ _ _ (lookup_empty _)).
    change (Z.to_nat WORKSPACE_COMMON_BUFFER_SIZE) with 2%nat.
    rewrite (CreateBuffer_loop_S _ _ _ _ _ _ _ _ _ _ [] (lookup_insert_eq _ _ _)).
    rewrite buffer_name_Common_1.
    rewrite (mbind_ret _ _ _ _ _
               (CreateTensor_plain_step fuel this wa blank tm1 _ ts1 "_t_Common_buffer_1"
                  Hwsa eq_refl eq_refl ltac:(by unfold tm1; rewrite lookup_insert_ne))).
    fold p1 ts2 tm2. rewrite insert_insert_eq.
    rewrite (CreateBuffer_loop_S _ _ _ _ _ _ _ _ _ _ _ (lookup_insert_eq _ _ _)).
    rewrite buffer_name_Common_2.
    rewrite (mbind_ret _ _ _ _ _
               (CreateTensor_plain_step fuel this wa blank tm2 _ ts2 "_t_Common_buffer_2"
                  Hwsa eq_refl eq_refl
                  ltac:(by unfold tm2, tm1; rewrite !lookup_insert_ne))).
    fold p2 ts3 tm3. rewrite insert_insert_eq. reflexivity. }
  assert (Hcb2 : CreateBuffer (S fuel) this "Grad" WORKSPACE_GRAD_BUFFER_SIZE
                   (local_update this blank tm3 bm1 ts3 wa)
                 = Ret (tt, local_update this blank tm4 bm2 ts4 wa)).
  { rewrite CreateBuffer_local_update by (by unfold bm1; rewrite lookup_insert_ne).
    change (Z.to_nat WORKSPACE_GRAD_BUFFER_SIZE) with 1%nat.
    rewrite (CreateBuffer_loop_S _ _ _ _ _ _ _ _ _ _ [] (lookup_insert_eq _ _ _)).
    rewrite buffer_name_Grad_1.
    rewrite (mbind_ret _ _ _ _ _
               (CreateTensor_plain_step fuel this wa blank tm3 _ ts3 "_t_Grad_buffer_1"
                  Hwsa eq_refl eq_refl
                  ltac:(by unfold tm3, tm2, tm1; rewrite !lookup_insert_ne))).
    fold p3 ts4 tm4. rewrite insert_insert_eq. reflexivity. }
  assert (Hne : ∀ (ts : gmap nat Tensor) p q t, ts !! p = None →
                  (<[q := t]> ts) !! p = None → p ≠ q).
  { intros ts p q t _ Hq ->. by rewrite lookup_insert_eq in Hq. }
  exists this, (local_update this blank tm4 bm2 ts4 wa).
  eexists _, p0, p1, p2, p3.
  split; [unfold mbind; by rewrite Hct, Hcb1, Hcb2|].
  split; [done|].
  split; [unfold local_update, wa; cbn; by rewrite insert_insert_eq|].
  do 8 (split; [done|]).
  assert (H10 : p1 ≠ p0) by (intros Heq; unfold ts1 in H1; rewrite Heq, lookup_insert_eq in H1; done).
  assert (H20 : p2 ≠ p0 ∧ p2 ≠ p1).
  { unfold ts2, ts1 in H2. split; intros Heq; rewrite Heq in H2.
    - rewrite lookup_insert_ne, lookup_insert_eq in H2 by done. done.
    - by rewrite lookup_insert_eq in H2. }
  assert (H30 : p3 ≠ p0 ∧ p3 ≠ p1 ∧ p3 ≠ p2).
  { unfold ts3, ts2, ts1 in H3. destruct H20. split; [|split]; intros Heq; rewrite Heq in H3.
    - rewrite !lookup_insert_ne, lookup_insert_eq in H3 by done. done.
    - rewrite lookup_insert_ne, lookup_insert_eq in H3 by done. done.
    - by rewrite lookup_insert_eq in H3. }
  destruct H20 as [H20 H21], H30 as (H30 & H31 & H32). split.
  - repeat (apply NoDup_cons; split;
              [intros Hin; repeat (apply elem_of_cons in Hin as [Heq|Hin]);
               try congruence; by apply not_elem_of_nil in Hin|]).
    apply NoDup_nil_2.
  - intros p Hp. fold ts0.
    repeat (apply elem_of_cons in Hp as [->|Hp]); [done| | | |by apply not_elem_of_nil in Hp].
    + unfold ts1 in H1. by rewrite lookup_insert_ne in H1.
    + unfold ts2, ts1 in H2. by rewrite !lookup_insert_ne in H2.
    + unfold ts3, ts2, ts1 in H3. by rewrite !lookup_insert_ne in H3.
Qed.

(** ** Attaching and fetching *)

Lemma GetTensor_frame (d : nat) (w w' : World) (this : addr) :
  (∀ a, a ≠ this → workspaces w' !! a = workspaces w !! a) →
  ∀ (fuel : nat) (b : addr) (name : string) (r : bool),
    avoids d w this b = true → (d ≤ fuel)%nat →
    GetTensor fuel w' b name r = GetTensor fuel w b name r.
Proof.
  intros Hagree.
  induction d as [|d IH]; intros fuel b name r Hav Hle; [discriminate|].
  destruct fuel as [|fuel]; [lia|].
  pose proof Hav as Hav'. simpl in Hav'. apply andb_true_iff in Hav' as [Hne Hrem].
  apply negb_true_iff, bool_decide_eq_false in Hne.
  cbn [GetTensor]. rewrite (Hagree b Hne).
  destruct (workspaces w !! b) as [wb|]; [|done].
  destruct (tensor_map_ wb !! GetTensorName wb name); [done|].
  destruct r; [|done].
  rewrite forallb_forall in Hrem.
  apply search_remote_ext; intros it Hin.
  - apply (HasTensor_frame d w w' this Hagree); [|lia].
    apply Hrem. by apply list_elem_of_In.
  - apply IH; [|lia]. apply Hrem. by apply list_elem_of_In.
Qed.

(** X17: a workspace without composed workspaces and without a local entry
    for a name does not find it; once a workspace [b] whose composition is
    well founded and does not lead back is attached, [HasTensor(name)]
    answers what [b] answers for the resolved name and [GetTensor(name)]
    returns the handle [b] returns for it, and aborts when [b] does not
    have it. *)
Theorem MoveWorkspace_then_remote_fetch (d fuel : nat) (w : World) (this b : addr)
    (me other : Workspace) (name : string) :
  workspaces w !! this = Some me → workspaces w !! b = Some other →
  workspace_map_ me = [] →
  avoids d w this b = true → (d ≤ fuel)%nat →
  tensor_map_ me !! GetTensorName me name = None →
  let query := GetTensorName me name in
  ∃ w', MoveWorkspace this (Some b) w = Ret (b, w') ∧
        HasTensor (S fuel) w this name true = Ret false ∧
        GetTensor (S fuel) w this name true = Fatal (TensorNotFound name) ∧
        HasTensor (S fuel) w' this name true = HasTensor fuel w b query true ∧
        (∀ h, GetTensor fuel w b query true = Ret h →
              GetTensor (S fuel) w' this name true = Ret h) ∧
        (HasTensor fuel w b query true = Ret false →
         GetTensor (S fuel) w' this name true = Fatal (TensorNotFound name)).
Proof.
  intros Hme Hother Hnil Hav Hle Hloc query.
  assert (Hloc' : tensor_map_ me !! query = None) by done. clear Hloc.
  eexists. split.
  { apply (MoveWorkspace_new _ _ _ _ _ Hme Hother). by rewrite Hnil. }
  set (me' := set_workspace_map (λ l, l ++ [(name_ other, b)]) me).
  set (w' := put_workspace this me' w).
  pose proof (lookup_put_workspace this me' w) as Hme'. fold w' in Hme'.
  assert (Hagree : ∀ a, a ≠ this → workspaces w' !! a = workspaces w !! a).
  { intros a Hne. unfold w'. cbn. by rewrite lookup_insert_ne. }
  pose proof (avoids_wf_depth _ _ _ _ Hav) as Hwfb.
  assert (Hhas : HasTensor fuel w' b query true = HasTensor fuel w b query true)
    by (by apply (HasTensor_frame d w w' this Hagree)).
  assert (Hget : GetTensor fuel w' b query true = GetTensor fuel w b query true)
    by (by apply (GetTensor_frame d w w' this Hagree)).
  split; [cbn [HasTensor]; rewrite Hme, Hnil; fold query; rewrite Hloc';
          by rewrite bool_decide_false by (intros [? ?]; discriminate)|].
  split; [cbn [GetTensor]; rewrite Hme, Hnil; fold query; by rewrite Hloc'|].
  split; [|split].
  - cbn [HasTensor]. rewrite Hme'. cbn [negb].
    rewrite (GetTensorName_same_aliases me me' name eq_refl). fold query.
    cbn [tensor_map_ me' set_workspace_map workspace_map_]. rewrite Hloc', Hnil.
    rewrite bool_decide_false by (intros [? ?]; discriminate).
    cbn [app or_remote snd]. rewrite Hhas.
    by destruct (HasTensor fuel w b query true) as [[]| | |].
  - intros h Hh. cbn [GetTensor]. rewrite Hme'.
    rewrite (GetTensorName_same_aliases me me' name eq_refl). fold query.
    cbn [tensor_map_ me' set_workspace_map workspace_map_]. rewrite Hloc', Hnil.
    cbn [app search_remote snd]. rewrite Hhas, Hget.
    destruct (HasTensor_GetTensor d w b query Hwfb) as [[Ht _]|[_ Hf]].
    + rewrite (HasTensor_fuel d w fuel) by done. rewrite Ht. cbn. done.
    + rewrite (GetTensor_fuel d w fuel) in Hh by done. congruence.
  - intros Hfalse. cbn [GetTensor]. rewrite Hme'.
    rewrite (GetTensorName_same_aliases me me' name eq_refl). fold query.
    cbn [tensor_map_ me' set_workspace_map workspace_map_]. rewrite Hloc', Hnil.
    cbn [app search_remote snd]. by rewrite Hhas, Hfalse.
Qed.

(** ** GetGraphs *)

Section GraphListing.

Variable Run : GraphBase → string → string → M bool.

(** X18: [GetGraphs] returns, without changing anything, the keys of
    [graph_map_], each once; [RunGraph] hands a name to the graph engine
    exactly when the name is in that list, and reports an unknown graph and
    returns [false] exactly when it is not. *)
Theorem GetGraphs_lists_what_RunGraph_runs (w : World) (this : addr) (ws : Workspace) :
  workspaces w !! this = Some ws →
  ∃ names,
    GetGraphs this w = Ret (names, w) ∧ NoDup names ∧
    ∀ graph_name include exclude,
      (graph_name ∈ names →
       ∃ g, graph_map_ ws !! graph_name = Some g ∧
            RunGraph Run this graph_name include exclude w = Run g include exclude w) ∧
      (graph_name ∉ names →
       RunGraph Run this graph_name include exclude w
       = Ret (false, log_error ("Graph(" +:+ graph_name +:+ ") does not exist.") w)).
Proof.
  intros Hws. exists (map_to_list (graph_map_ ws)).*1.
  split; [unfold GetGraphs; by rewrite (mbind_ret _ _ _ _ _ (self_ret _ _ _ Hws))|].
  split; [apply NoDup_fst_map_to_list|].
  intros graph_name include exclude. unfold RunGraph.
  rewrite (mbind_ret _ _ _ _ _ (self_ret _ _ _ Hws)). split.
  - intros Hin. apply list_elem_of_fmap in Hin as ([k g] & -> & Hin).
    apply elem_of_map_to_list in Hin. exists g. cbn. by rewrite Hin.
  - intros Hnotin. destruct (graph_map_ ws !! graph_name) as [g|] eqn:Hg; [|done].
    destruct Hnotin. apply list_elem_of_fmap. exists (graph_name, g).
    split; [done|]. by apply elem_of_map_to_list.
Qed.

End GraphListing.

(** ** Bounds of the pool *)

(** X19: [ReleaseBuffer] never grows a stack beyond the limit of its
    category.  Whenever it returns, the stack of the category is the one
    before, or that one with one name pushed and then no longer than the
    limit (2 for "Common", 1 for "Grad", 0 otherwise); the stacks of the
    other categories are as before. *)
Theorem ReleaseBuffer_respects_limit (w w' : World) (this : addr) (ws : Workspace)
    (tensor : handle) (category : string) (enforce : bool) :
  workspaces w !! this = Some ws →
  ReleaseBuffer this tensor category enforce w = Ret (tt, w') →
  let st := default [] (buffer_map_ ws !! category) in
  ∃ st',
    local_stack w' this category = Some st' ∧
    (st' = st ∨
     (∃ name, st' = name :: st) ∧ enforce = false ∧
     Z.of_nat (length st') ≤ limit_of category) ∧
    Z.of_nat (length st') ≤ Z.max (Z.of_nat (length st)) (limit_of category) ∧
    limit_of category ≤ 2 ∧
    (∀ c, c ≠ category → local_stack w' this c = local_stack w this c).
Proof.
  intros Hws Hret st.
  pose proof (limit_of_range category) as [_ Hmax].
  destruct (decide (limit_of category ≤ Z.of_nat (length st) ∨ enforce = true))
    as [Hcond|Hcond].
  - rewrite (ReleaseBuffer_release _ _ _ _ _ _ Hws Hcond) in Hret.
    apply mbind_inv in Hret as (name & w1 & Hname & Hrel).
    apply tensor_name_inv in Hname as [-> _].
    destruct (ReleaseTensor_inv _ _ _ _ _ (lookup_put_workspace _ _ _) Hrel)
      as (p & t & _ & _ & ->).
    exists st. unfold local_stack. cbn [workspaces set_tensors].
    rewrite lookup_put_workspace. simpl. rewrite lookup_insert_eq.
    split; [done|]. split; [by left|]. split; [lia|]. split; [done|].
    intros c Hne. rewrite Hws. simpl. by rewrite lookup_insert_ne.
  - assert (Z.of_nat (length st) < limit_of category) as Hlt by lia.
    assert (enforce = false) as -> by (destruct enforce; [tauto|done]).
    destruct tensor as [p|]; [destruct (tensors w !! p) as [t|] eqn:Ht|].
    + rewrite (ReleaseBuffer_recover _ _ _ _ _ _ Hws Ht Hlt) in Hret.
      injection Hret as <-. exists (t_name t :: st).
      unfold local_stack. rewrite lookup_put_workspace. simpl.
      rewrite lookup_insert_eq. split; [done|].
      split; [right; split; [by eauto|split; [done|cbn [length]; lia]]|].
      split; [cbn [length]; lia|]. split; [done|].
      intros c Hne. rewrite Hws. simpl. by rewrite lookup_insert_ne.
    + exfalso. revert Hret. unfold ReleaseBuffer.
      rewrite (mbind_ret _ _ _ _ _ (buffer_at_ret _ category _ _ Hws)).
      destruct (_ || _); unfold mbind, tensor_name; cbn [tensors put_workspace];
        by rewrite Ht.
    + exfalso. revert Hret. unfold ReleaseBuffer.
      rewrite (mbind_ret _ _ _ _ _ (buffer_at_ret _ category _ _ Hws)).
      by destruct (_ || _).
Qed.

Lemma GetBuffers_S (this : addr) (category : string) (k : nat) (w : World) :
  GetBuffers this category (S k) w
  = (h ←ₘ GetBuffer this category;
     hs ←ₘ GetBuffers this category k;
     mret (h :: hs)) w.
Proof. reflexivity. Qed.

(** X20: a category hands out exactly the buffers on its stack.  As many
    [GetBuffer] calls as the stack has names return, with the entries
    stored under these names from the top down, and leave the stack empty
    and every tensor as it was; the call after them aborts. *)
Theorem GetBuffers_drain_the_stack (this : addr) (category : string) :
  ∀ (st : list string) (w : World) (ws : Workspace),
    workspaces w !! this = Some ws →
    buffer_map_ ws !! category = Some st →
    ∃ w', GetBuffers this category (length st) w
          = Ret ((λ name, default None (tensor_map_ ws !! name)) <$> st, w') ∧
          local_stack w' this category = Some [] ∧
          tensors w' = tensors w ∧
          GetBuffer this category w' = Fatal (BuffersNotEnough category) ∧
          GetBuffers this category (S (length st)) w = Fatal (BuffersNotEnough category).
Proof.
  assert (Hmain : ∀ (st : list string) (w : World) (ws : Workspace),
    workspaces w !! this = Some ws →
    buffer_map_ ws !! category = Some st →
    ∃ w' ws', GetBuffers this category (length st) w
          = Ret ((λ name, default None (tensor_map_ ws !! name)) <$> st, w') ∧
          workspaces w' !! this = Some ws' ∧
          buffer_map_ ws' !! category = Some [] ∧
          tensors w' = tensors w).
  { induction st as [|name rest IH]; intros w ws Hws Hst.
    - exists w, ws. done.
    - set (h := default None (tensor_map_ ws !! name)).
      set (ws1 := set_tensor_map <[name := h]> (set_buffer_map <[category := rest]> ws)).
      destruct (IH (put_workspace this ws1 w) ws1) as (w' & ws' & Hrun & Hws' & Hst' & Hts).
      { apply lookup_put_workspace. }
      { cbn. by rewrite lookup_insert_eq. }
      exists w', ws'. split; [|done].
      cbn [length]. rewrite GetBuffers_S.
      rewrite (mbind_ret _ _ _ _ _ (GetBuffer_nonempty _ _ _ _ _ _ Hws Hst)).
      fold h ws1. rewrite (mbind_ret _ _ _ _ _ Hrun). unfold mret. cbn [fmap list_fmap].
      do 3 f_equal. apply list_fmap_ext. intros _ name' _.
      cbn [tensor_map_ ws1 set_tensor_map set_buffer_map].
      destruct (decide (name = name')) as [<-|Hne];
        [by rewrite lookup_insert_eq | by rewrite lookup_insert_ne]. }
  intros st w ws Hws Hst.
  destruct (Hmain st w ws Hws Hst) as (w' & ws' & Hrun & Hws' & Hst' & Hts).
  assert (Hfatal : GetBuffer this category w' = Fatal (BuffersNotEnough category)).
  { apply (GetBuffer_empty _ _ _ _ Hws'). by rewrite Hst'. }
  exists w'. split; [done|].
  split; [unfold local_stack; rewrite Hws'; simpl; done|].
  split; [done|]. split; [done|].
  clear Hrun Hws' Hst' Hts Hfatal w' ws'.
  revert w ws Hws Hst. induction st as [|name rest IH]; intros w ws Hws Hst.
  - cbn [length]. rewrite GetBuffers_S. unfold mbind.
    by rewrite (GetBuffer_empty _ _ _ _ Hws) by (by rewrite Hst).
  - cbn [length]. rewrite GetBuffers_S.
    rewrite (mbind_ret _ _ _ _ _ (GetBuffer_nonempty _ _ _ _ _ _ Hws Hst)).
    unfold mbind at 1.
    rewrite (IH _ _ (lookup_put_workspace _ _ _)); [done|].
    cbn. by rewrite lookup_insert_eq.
Qed.

(** ** The further statements at concrete worlds *)

Lemma MoveWorkspace_first_attach_wins_witness :
  workspaces two_workspaces_world !! 1%nat = Some (workspace_at two_workspaces_world 1) ∧
  workspaces two_workspaces_world !! 0%nat = Some (workspace_at two_workspaces_world 0) ∧
  MoveWorkspace 1 None two_workspaces_world = Fatal InvalidWorkspace.
Proof.
  assert (H1 : workspaces two_workspaces_world !! 1%nat
               = Some (workspace_at two_workspaces_world 1)) by (vm_compute; reflexivity).
  assert (H2 : workspaces two_workspaces_world !! 0%nat
               = Some (workspace_at two_workspaces_world 0)) by (vm_compute; reflexivity).
  split; [exact H1|]. split; [exact H2|].
  exact (proj1 (MoveWorkspace_first_attach_wins two_workspaces_world 1 0 _ _ H1 H2)).
Defined.

Lemma CreateRename_redirects_to_key_witness :
  workspaces fresh_world !! 0%nat = Some (workspace_at fresh_world 0) ∧
  ∃ w' ws', CreateRename 0 "out" "ignore" fresh_world = Ret (tt, w') ∧
            GetTensorName ws' "out" = "ignore".
Proof.
  assert (H1 : workspaces fresh_world !! 0%nat = Some (workspace_at fresh_world 0))
    by (vm_compute; reflexivity).
  split; [exact H1|].
  destruct (CreateRename_redirects_to_key fresh_world 0 _ "out" "ignore" H1)
    as (w' & ws' & Hret & _ & _ & _ & _ & _ & Hname & _).
  exists w', ws'. split; [exact Hret | exact Hname].
Defined.

Lemma CreateTensor_then_GetTensor_witness :
  workspaces fresh_world !! 0%nat = Some (workspace_at fresh_world 0) ∧
  CreateTensor 1 0 "t" fresh_world
  = Ret (Some 4%nat, world_of (CreateTensor 1 0 "t" fresh_world)) ∧
  HasTensor 1 (world_of (CreateTensor 1 0 "t" fresh_world)) 0 "t" false = Ret true.
Proof.
  assert (H1 : workspaces fresh_world !! 0%nat = Some (workspace_at fresh_world 0))
    by (vm_compute; reflexivity).
  assert (H2 : CreateTensor 1 0 "t" fresh_world
               = Ret (Some 4%nat, world_of (CreateTensor 1 0 "t" fresh_world)))
    by (vm_compute; reflexivity).
  split; [exact H1|]. split; [exact H2|].
  exact (proj1 (CreateTensor_then_GetTensor 1 0 fresh_world _ 0 _ "t" _ H1 H2)).
Defined.

Lemma CreateTensor_registered_is_noop_witness :
  workspaces fresh_world !! 0%nat = Some (workspace_at fresh_world 0) ∧
  wf_depth 1 fresh_world 0 = true ∧ (1 ≤ 1)%nat ∧
  GetTensorName (workspace_at fresh_world 0)
    (GetTensorName (workspace_at fresh_world 0) "ignore")
  = GetTensorName (workspace_at fresh_world 0) "ignore" ∧
  tensor_map_ (workspace_at fresh_world 0)
    !! GetTensorName (workspace_at fresh_world 0) "ignore" = Some (Some 0%nat) ∧
  CreateTensor 1 0 "ignore" fresh_world = Ret (Some 0%nat, fresh_world).
Proof.
  assert (H1 : workspaces fresh_world !! 0%nat = Some (workspace_at fresh_world 0))
    by (vm_compute; reflexivity).
  assert (H2 : wf_depth 1 fresh_world 0 = true) by (vm_compute; reflexivity).
  assert (H3 : (1 ≤ 1)%nat) by lia.
  assert (H4 : GetTensorName (workspace_at fresh_world 0)
                 (GetTensorName (workspace_at fresh_world 0) "ignore")
               = GetTensorName (workspace_at fresh_world 0) "ignore")
    by (vm_compute; reflexivity).
  assert (H5 : tensor_map_ (workspace_at fresh_world 0)
                 !! GetTensorName (workspace_at fresh_world 0) "ignore"
               = Some (Some 0%nat)) by (vm_compute; reflexivity).
  split; [exact H1|]. split; [exact H2|]. split; [exact H3|].
  split; [exact H4|]. split; [exact H5|].
  exact (CreateTensor_registered_is_noop 1 1 fresh_world 0 _ "ignore" _ H1 H2 H3 H4 H5).
Defined.

Lemma CreateTensor_unknown_allocates_witness :
  workspaces fresh_world !! 0%nat = Some (workspace_at fresh_world 0) ∧
  wf_depth 1 fresh_world 0 = true ∧ (1 ≤ 1)%nat ∧
  rename_map_ (workspace_at fresh_world 0) !! "t" = None ∧
  HasTensor 1 fresh_world 0 "t" true = Ret false ∧
  ∃ p w', CreateTensor 1 0 "t" fresh_world = Ret (Some p, w') ∧
          tensors fresh_world !! p = None.
Proof.
  assert (H1 : workspaces fresh_world !! 0%nat = Some (workspace_at fresh_world 0))
    by (vm_compute; reflexivity).
  assert (H2 : wf_depth 1 fresh_world 0 = true) by (vm_compute; reflexivity).
  assert (H3 : (1 ≤ 1)%nat) by lia.
  assert (H4 : rename_map_ (workspace_at fresh_world 0) !! "t" = None)
    by (vm_compute; reflexivity).
  assert (H5 : HasTensor 1 fresh_world 0 "t" true = Ret false)
    by (vm_compute; reflexivity).
  split; [exact H1|]. split; [exact H2|]. split; [exact H3|].
  split; [exact H4|]. split; [exact H5|].
  destruct (CreateTensor_unknown_allocates 1 1 fresh_world 0 _ "t" H1 H2 H3 H4 H5)
    as (p & w' & Hct & Hp & _).
  exists p, w'. split; [exact Hct | exact Hp].
Defined.

Lemma GetTensor_agrees_with_HasTensor_witness :
  workspaces remote_owner_world !! 1%nat = Some (workspace_at remote_owner_world 1) ∧
  wf_depth 2 remote_owner_world 1 = true ∧ (2 ≤ 2)%nat ∧
  ∀ h, GetTensor 2 remote_owner_world 1 "x" false = Ret h →
       GetTensor 2 remote_owner_world 1 "x" true = Ret h ∧
       HasTensor 2 remote_owner_world 1 "x" true = Ret true.
Proof.
  assert (H1 : workspaces remote_owner_world !! 1%nat
               = Some (workspace_at remote_owner_world 1)) by (vm_compute; reflexivity).
  assert (H2 : wf_depth 2 remote_owner_world 1 = true) by (vm_compute; reflexivity).
  assert (H3 : (2 ≤ 2)%nat) by lia.
  split; [exact H1|]. split; [exact H2|]. split; [exact H3|].
  exact (proj2 (proj2 (GetTensor_agrees_with_HasTensor 2 2 remote_owner_world 1 _ "x"
                         H1 H2 H3))).
Defined.

Lemma cyclic_composition_never_returns_witness :
  (∀ a, a = 0%nat →
     ∃ ws it, workspaces self_composed_world !! a = Some ws ∧
              it ∈ workspace_map_ ws ∧ it.2 = 0%nat) ∧
  ∀ b, HasTensor 5 self_composed_world 0 "x" true ≠ Ret b.
Proof.
  assert (H1 : ∀ a, a = 0%nat →
            ∃ ws it, workspaces self_composed_world !! a = Some ws ∧
                     it ∈ workspace_map_ ws ∧ it.2 = 0%nat).
  { intros a Ha. rewrite Ha.
    exists (workspace_at self_composed_world 0), ("A", 0%nat).
    split; [vm_compute; reflexivity|]. split; [|reflexivity].
    replace (workspace_map_ (workspace_at self_composed_world 0)) with [("A", 0%nat)]
      by (vm_compute; reflexivity).
    apply list_elem_of_here. }
  split; [exact H1|].
  exact (proj1 (cyclic_composition_never_returns self_composed_world (λ a, a = 0%nat)
                  H1 5 0%nat "x" eq_refl)).
Defined.


Lemma CreateFiller_first_definition_wins_witness :
  CreateFillers [mkTensorFiller "w" "xavier"; mkTensorFiller "w" "constant"] ∅
  = FillerRet {[ "w" := mkTensorFiller "w" "xavier" ]} ∧
  GetFiller "w" {[ "w" := mkTensorFiller "w" "xavier" ]}
  = Some (mkTensorFiller "w" "xavier").
Proof.
  assert (H1 : CreateFillers [mkTensorFiller "w" "xavier"; mkTensorFiller "w" "constant"] ∅
               = FillerRet {[ "w" := mkTensorFiller "w" "xavier" ]})
    by (vm_compute; reflexivity).
  split; [exact H1|].
  exact (proj2 (CreateFiller_first_definition_wins
                  [mkTensorFiller "w" "xavier"; mkTensorFiller "w" "constant"] ∅)
           _ H1 "w").
Defined.

Lemma GetBuffer_then_ReleaseBuffer_restores_witness :
  workspaces fresh_world !! 0%nat = Some (workspace_at fresh_world 0) ∧
  buffer_map_ (workspace_at fresh_world 0) !! "Common"
  = Some ["_t_Common_buffer_2"; "_t_Common_buffer_1"] ∧
  tensor_map_ (workspace_at fresh_world 0) !! "_t_Common_buffer_2" = Some (Some 2%nat) ∧
  tensors fresh_world !! 2%nat = Some (new_Tensor "_t_Common_buffer_2") ∧
  t_name (new_Tensor "_t_Common_buffer_2") = "_t_Common_buffer_2" ∧
  Z.of_nat (length ["_t_Common_buffer_1"]) < limit_of "Common" ∧
  ∃ w1, GetBuffer 0 "Common" fresh_world = Ret (Some 2%nat, w1) ∧
        local_stack w1 0 "Common" = Some ["_t_Common_buffer_1"] ∧
        ReleaseBuffer 0 (Some 2%nat) "Common" false w1 = Ret (tt, fresh_world).
Proof.
  assert (H1 : workspaces fresh_world !! 0%nat = Some (workspace_at fresh_world 0))
    by (vm_compute; reflexivity).
  assert (H2 : buffer_map_ (workspace_at fresh_world 0) !! "Common"
               = Some ["_t_Common_buffer_2"; "_t_Common_buffer_1"])
    by (vm_compute; reflexivity).
  assert (H3 : tensor_map_ (workspace_at fresh_world 0) !! "_t_Common_buffer_2"
               = Some (Some 2%nat)) by (vm_compute; reflexivity).
  assert (H4 : tensors fresh_world !! 2%nat = Some (new_Tensor "_t_Common_buffer_2"))
    by (vm_compute; reflexivity).
  assert (H5 : t_name (new_Tensor "_t_Common_buffer_2") = "_t_Common_buffer_2")
    by reflexivity.
  assert (H6 : Z.of_nat (length ["_t_Common_buffer_1"]) < limit_of "Common")
    by (vm_compute; reflexivity).
  split; [exact H1|]. split; [exact H2|]. split; [exact H3|].
  split; [exact H4|]. split; [exact H5|]. split; [exact H6|].
  exact (GetBuffer_then_ReleaseBuffer_restores fresh_world 0 _ "Common"
           "_t_Common_buffer_2" ["_t_Common_buffer_1"] 2 _ H1 H2 H3 H4 H5 H6).
Defined.

Lemma ReleaseBuffer_then_GetBuffer_returns_it_witness :
  workspaces one_taken_world !! 0%nat = Some (workspace_at one_taken_world 0) ∧
  buffer_map_ (workspace_at one_taken_world 0) !! "Common" = Some ["_t_Common_buffer_1"] ∧
  tensors one_taken_world !! 2%nat = Some (new_Tensor "_t_Common_buffer_2") ∧
  tensor_map_ (workspace_at one_taken_world 0)
    !! t_name (new_Tensor "_t_Common_buffer_2") = Some (Some 2%nat) ∧
  Z.of_nat (length ["_t_Common_buffer_1"]) < limit_of "Common" ∧
  ∃ w1, ReleaseBuffer 0 (Some 2%nat) "Common" false one_taken_world = Ret (tt, w1) ∧
        local_stack w1 0 "Common"
        = Some [t_name (new_Tensor "_t_Common_buffer_2"); "_t_Common_buffer_1"] ∧
        tensors w1 = tensors one_taken_world ∧
        GetBuffer 0 "Common" w1 = Ret (Some 2%nat, one_taken_world).
Proof.
  assert (H1 : workspaces one_taken_world !! 0%nat = Some (workspace_at one_taken_world 0))
    by (vm_compute; reflexivity).
  assert (H2 : buffer_map_ (workspace_at one_taken_world 0) !! "Common"
               = Some ["_t_Common_buffer_1"]) by (vm_compute; reflexivity).
  assert (H3 : tensors one_taken_world !! 2%nat = Some (new_Tensor "_t_Common_buffer_2"))
    by (vm_compute; reflexivity).
  assert (H4 : tensor_map_ (workspace_at one_taken_world 0)
                 !! t_name (new_Tensor "_t_Common_buffer_2") = Some (Some 2%nat))
    by (vm_compute; reflexivity).
  assert (H5 : Z.of_nat (length ["_t_Common_buffer_1"]) < limit_of "Common")
    by (vm_compute; reflexivity).
  split; [exact H1|]. split; [exact H2|]. split; [exact H3|].
  split; [exact H4|]. split; [exact H5|].
  exact (ReleaseBuffer_then_GetBuffer_returns_it one_taken_world 0 _ "Common"
           ["_t_Common_buffer_1"] 2 _ H1 H2 H3 H4 H5).
Defined.

Lemma CreateBuffer_without_buffers_witness :
  workspaces fresh_world !! 0%nat = Some (workspace_at fresh_world 0) ∧
  buffer_map_ (workspace_at fresh_world 0) !! "Scratch" = None ∧ 0 ≤ 0 ∧
  ∃ w', CreateBuffer 0 0 "Scratch" 0 fresh_world = Ret (tt, w') ∧
        GetBuffer 0 "Scratch" w' = Fatal (BuffersNotEnough "Scratch").
Proof.
  assert (H1 : workspaces fresh_world !! 0%nat = Some (workspace_at fresh_world 0))
    by (vm_compute; reflexivity).
  assert (H2 : buffer_map_ (workspace_at fresh_world 0) !! "Scratch" = None)
    by (vm_compute; reflexivity).
  assert (H3 : 0 ≤ 0) by lia.
  split; [exact H1|]. split; [exact H2|]. split; [exact H3|].
  destruct (CreateBuffer_without_buffers 0 fresh_world 0 _ "Scratch" 0 H1 H2 H3)
    as (w' & Hcb & _ & _ & _ & Hget & _).
  exists w'. split; [exact Hcb | exact Hget].
Defined.

Lemma ReleaseBuffer_registers_category_witness :
  workspaces fresh_world !! 0%nat = Some (workspace_at fresh_world 0) ∧
  local_stack fresh_world 0 "Scratch" = None ∧
  ReleaseBuffer 0 (Some 0%nat) "Scratch" false fresh_world
  = Ret (tt, world_of (ReleaseBuffer 0 (Some 0%nat) "Scratch" false fresh_world)) ∧
  ∀ fuel num,
    CreateBuffer fuel 0 "Scratch" num
      (world_of (ReleaseBuffer 0 (Some 0%nat) "Scratch" false fresh_world))
    = Fatal (DuplicateCategory "Scratch").
Proof.
  assert (H1 : workspaces fresh_world !! 0%nat = Some (workspace_at fresh_world 0))
    by (vm_compute; reflexivity).
  assert (H2 : ReleaseBuffer 0 (Some 0%nat) "Scratch" false fresh_world
               = Ret (tt, world_of (ReleaseBuffer 0 (Some 0%nat) "Scratch" false
                                      fresh_world)))
    by (vm_compute; reflexivity).
  split; [exact H1|]. split; [vm_compute; reflexivity|]. split; [exact H2|].
  exact (proj2 (ReleaseBuffer_registers_category fresh_world _ 0 _ (Some 0%nat)
                  "Scratch" false H1 H2)).
Defined.

Lemma invoke_writes_this_only_witness :
  invoke 1 0 (CallCreateTensor "t") fresh_world
  = Ret (tt, world_of (invoke 1 0 (CallCreateTensor "t") fresh_world)) ∧
  errlog (world_of (invoke 1 0 (CallCreateTensor "t") fresh_world)) = errlog fresh_world.
Proof.
  assert (H1 : invoke 1 0 (CallCreateTensor "t") fresh_world
               = Ret (tt, world_of (invoke 1 0 (CallCreateTensor "t") fresh_world)))
    by (vm_compute; reflexivity).
  split; [exact H1|].
  destruct (invoke_writes_this_only 1 0 (CallCreateTensor "t") fresh_world _ H1)
    as (ws & ws' & _ & _ & _ & Hlog & _).
  exact Hlog.
Defined.

Lemma registry_ok_reachable_witness :
  run [(1%nat, NewWorkspace "W"); (1%nat, Invoke 0 (CallCreateTensor "t"))] empty_world
  = Ret (tt, world_of (CreateTensor 1 0 "t" fresh_world)) ∧
  registry_ok (world_of (CreateTensor 1 0 "t" fresh_world)).
Proof.
  assert (H1 : run [(1%nat, NewWorkspace "W"); (1%nat, Invoke 0 (CallCreateTensor "t"))]
                 empty_world
               = Ret (tt, world_of (CreateTensor 1 0 "t" fresh_world)))
    by (vm_compute; reflexivity).
  split; [exact H1|].
  exact (proj1 (proj2 registry_ok_reachable) _ _ H1).
Defined.

Lemma new_Workspace_seeds_witness :
  (1 ≤ 1)%nat ∧
  ∃ a w1, new_Workspace 1 "W" empty_world = Ret (a, w1) ∧
          workspaces empty_world !! a = None.
Proof.
  assert (H1 : (1 ≤ 1)%nat) by lia.
  split; [exact H1|].
  destruct (new_Workspace_seeds 1 "W" empty_world H1)
    as (a & w1 & ws1 & p0 & p1 & p2 & p3 & Hnew & Hfresh & _).
  exists a, w1. split; [exact Hnew | exact Hfresh].
Defined.

Lemma MoveWorkspace_then_remote_fetch_witness :
  workspaces two_workspaces_world !! 1%nat = Some (workspace_at two_workspaces_world 1) ∧
  workspaces two_workspaces_world !! 0%nat = Some (workspace_at two_workspaces_world 0) ∧
  workspace_map_ (workspace_at two_workspaces_world 1) = [] ∧
  avoids 1 two_workspaces_world 1 0 = true ∧ (1 ≤ 1)%nat ∧
  tensor_map_ (workspace_at two_workspaces_world 1)
    !! GetTensorName (workspace_at two_workspaces_world 1) "x" = None ∧
  ∃ w', MoveWorkspace 1 (Some 0%nat) two_workspaces_world = Ret (0%nat, w') ∧
        GetTensor 2 w' 1 "x" true = Ret (Some 4%nat).
Proof.
  assert (H1 : workspaces two_workspaces_world !! 1%nat
               = Some (workspace_at two_workspaces_world 1)) by (vm_compute; reflexivity).
  assert (H2 : workspaces two_workspaces_world !! 0%nat
               = Some (workspace_at two_workspaces_world 0)) by (vm_compute; reflexivity).
  assert (H3 : workspace_map_ (workspace_at two_workspaces_world 1) = [])
    by (vm_compute; reflexivity).
  assert (H4 : avoids 1 two_workspaces_world 1 0 = true) by (vm_compute; reflexivity).
  assert (H5 : (1 ≤ 1)%nat) by lia.
  assert (H6 : tensor_map_ (workspace_at two_workspaces_world 1)
                 !! GetTensorName (workspace_at two_workspaces_world 1) "x" = None)
    by (vm_compute; reflexivity).
  split; [exact H1|]. split; [exact H2|]. split; [exact H3|].
  split; [exact H4|]. split; [exact H5|]. split; [exact H6|].
  destruct (MoveWorkspace_then_remote_fetch 1 1 two_workspaces_world 1 0 _ _ "x"
              H1 H2 H3 H4 H5 H6) as (w' & Hmv & _ & _ & _ & Hget & _).
  exists w'. split; [exact Hmv|].
  apply Hget. vm_compute. reflexivity.
Defined.

Lemma GetGraphs_lists_what_RunGraph_runs_witness :
  workspaces fresh_world !! 0%nat = Some (workspace_at fresh_world 0) ∧
  ∃ names, GetGraphs 0 fresh_world = Ret (names, fresh_world) ∧ NoDup names.
Proof.
  assert (H1 : workspaces fresh_world !! 0%nat = Some (workspace_at fresh_world 0))
    by (vm_compute; reflexivity).
  split; [exact H1|].
  destruct (GetGraphs_lists_what_RunGraph_runs idle_Run fresh_world 0 _ H1)
    as (names & Hget & Hnd & _).
  exists names. split; [exact Hget | exact Hnd].
Defined.

Lemma ReleaseBuffer_respects_limit_witness :
  workspaces one_taken_world !! 0%nat = Some (workspace_at one_taken_world 0) ∧
  ReleaseBuffer 0 (Some 2%nat) "Common" false one_taken_world
  = Ret (tt, world_of (ReleaseBuffer 0 (Some 2%nat) "Common" false one_taken_world)) ∧
  limit_of "Common" ≤ 2.
Proof.
  assert (H1 : workspaces one_taken_world !! 0%nat = Some (workspace_at one_taken_world 0))
    by (vm_compute; reflexivity).
  assert (H2 : ReleaseBuffer 0 (Some 2%nat) "Common" false one_taken_world
               = Ret (tt, world_of (ReleaseBuffer 0 (Some 2%nat) "Common" false
                                      one_taken_world)))
    by (vm_compute; reflexivity).
  split; [exact H1|]. split; [exact H2|].
  destruct (ReleaseBuffer_respects_limit one_taken_world _ 0 _ (Some 2%nat) "Common"
              false H1 H2) as (st' & _ & _ & _ & Hlim & _).
  exact Hlim.
Defined.

Lemma GetBuffers_drain_the_stack_witness :
  workspaces fresh_world !! 0%nat = Some (workspace_at fresh_world 0) ∧
  buffer_map_ (workspace_at fresh_world 0) !! "Common"
  = Some ["_t_Common_buffer_2"; "_t_Common_buffer_1"] ∧
  GetBuffers 0 "Common" 3 fresh_world = Fatal (BuffersNotEnough "Common").
Proof.
  assert (H1 : workspaces fresh_world !! 0%nat = Some (workspace_at fresh_world 0))
    by (vm_compute; reflexivity).
  assert (H2 : buffer_map_ (workspace_at fresh_world 0) !! "Common"
               = Some ["_t_Common_buffer_2"; "_t_Common_buffer_1"])
    by (vm_compute; reflexivity).
  split; [exact H1|]. split; [exact H2|].
  destruct (GetBuffers_drain_the_stack 0 "Common" _ fresh_world _ H1 H2)
    as (w' & _ & _ & _ & _ & Hfatal).
  exact Hfatal.
Defined.
